(** * prompt_builder.py: nested renderer, macro engine, sections and builder

    A shallow embedding of [src/prompt_builder.py].  Python [str] values are
    sequences of Unicode code points, Python values form a closed tagged
    type, the insertion-ordered [dict]/[OrderedDict] is an association list
    with unique keys, and methods of [Section] and [PromptBuilder] are
    computations in a small state-and-exception monad over the object they
    are called on. *)

From Stdlib Require Import Ascii String DecimalString.
From Stdlib Require Import List NArith ZArith Bool Lia.
Import ListNotations.

Set Implicit Arguments.
Set Warnings "-register-all".

(** ** Python strings *)

(** A character is a Unicode code point; a [str] is a list of them, so that
    [len], slicing and [strip] count code points as Python does. *)
Definition char := N.
Definition pystr := list char.

(** ASCII literals of the source, written as Rocq strings. *)
Fixpoint u (s : string) : pystr :=
  match s with
  | EmptyString => []
  | String a s' => N_of_ascii a :: u s'
  end.

Definition NL : char := 10%N.          (* "\n" *)
Definition LBRACE : char := 123%N.     (* "{" *)
Definition RBRACE : char := 125%N.     (* "}" *)
Definition HASH : char := 35%N.        (* "#" *)
Definition ELLIPSIS : char := 8230%N.  (* U+2026, the one-character ellipsis *)
Definition SENTINEL : char := 57344%N. (* U+E000, first private-use code point *)

Definition char_eqb (a b : char) : bool := N.eqb a b.

Fixpoint pystr_eqb (a b : pystr) : bool :=
  match a, b with
  | [], [] => true
  | x :: a', y :: b' => char_eqb x y && pystr_eqb a' b'
  | _, _ => false
  end.

(** [str.isspace] on one character, which is also the class [\s] of [re] on
    [str] patterns: the code points CPython lists as whitespace. *)
Definition isspace (c : char) : bool :=
  ((9 <=? c) && (c <=? 13) || (28 <=? c) && (c <=? 32)
   || (c =? 133) || (c =? 160) || (c =? 5760)
   || (8192 <=? c) && (c <=? 8202)
   || (c =? 8232) || (c =? 8233) || (c =? 8239) || (c =? 8287)
   || (c =? 12288))%N.

(** [s.lstrip()], [s.rstrip()] and [s.strip()]. *)
Fixpoint lstrip (s : pystr) : pystr :=
  match s with
  | c :: s' => if isspace c then lstrip s' else s
  | [] => []
  end.

Definition rstrip (s : pystr) : pystr := rev (lstrip (rev s)).

Definition strip (s : pystr) : pystr := rstrip (lstrip s).

(** [sep.join(parts)]. *)
Fixpoint join (sep : pystr) (parts : list pystr) : pystr :=
  match parts with
  | [] => []
  | [p] => p
  | p :: ps => p ++ sep ++ join sep ps
  end.

(** [s.startswith(p)]. *)
Fixpoint startswith (p s : pystr) : bool :=
  match p, s with
  | [], _ => true
  | x :: p', y :: s' => char_eqb x y && startswith p' s'
  | _ :: _, [] => false
  end.

(** [p in s] for strings: [p] occurs as a substring of [s]. *)
Fixpoint contains (p s : pystr) : bool :=
  startswith p s ||
  match s with
  | [] => false
  | _ :: s' => contains p s'
  end.

(** [s * n] for a string [s]. *)
Fixpoint str_mul (s : pystr) (n : nat) : pystr :=
  match n with
  | O => []
  | S n' => s ++ str_mul s n'
  end.

(** [s[:n]] for an [int] [n]: a negative bound counts from the end. *)
Definition slice_to (s : pystr) (n : Z) : pystr :=
  if (n <? 0)%Z
  then firstn (Z.to_nat (Z.of_nat (length s) + n)) s
  else firstn (Z.to_nat n) s.

(** [str(n)] for an [int]: the decimal numeral. *)
Definition str_of_int (z : Z) : pystr :=
  u (NilEmpty.string_of_int (Z.to_int z)).

Definition str_of_nat (n : nat) : pystr := str_of_int (Z.of_nat n).

(** ** Insertion-ordered dictionaries *)

(** A [dict] (and [OrderedDict]) with [str] keys: the entries in insertion
    order.  A Python dictionary never holds a key twice; [dict_wf] says so. *)
Definition dict (V : Type) := list (pystr * V).

Section Dict.
Variable V : Type.

Definition dict_keys (d : dict V) : list pystr := map fst d.

Definition dict_wf (d : dict V) : Prop := NoDup (dict_keys d).

(** [d.get(k)]. *)
Fixpoint dict_get (k : pystr) (d : dict V) : option V :=
  match d with
  | [] => None
  | (k', v) :: d' => if pystr_eqb k k' then Some v else dict_get k d'
  end.

(** [k in d]. *)
Definition dict_mem (k : pystr) (d : dict V) : bool :=
  match dict_get k d with Some _ => true | None => false end.

(** [d[k] = v]: an existing key keeps its position, a new one goes last. *)
Fixpoint dict_set (k : pystr) (v : V) (d : dict V) : dict V :=
  match d with
  | [] => [(k, v)]
  | (k', v') :: d' =>
      if pystr_eqb k k' then (k', v) :: d' else (k', v') :: dict_set k v d'
  end.

(** [d.pop(k, None)], the dictionary that is left. *)
Fixpoint dict_pop (k : pystr) (d : dict V) : dict V :=
  match d with
  | [] => []
  | (k', v') :: d' =>
      if pystr_eqb k k' then d' else (k', v') :: dict_pop k d'
  end.
End Dict.

(** [x in xs] for a list of strings. *)
Definition str_in (x : pystr) (xs : list pystr) : bool :=
  existsb (pystr_eqb x) xs.

(** ** Python values *)

(** The values that payloads, contexts, conditions and the serialised state
    are made of.  Mapping keys are strings, as the annotations
    [Mapping[str, Any]] say; [set] and [float] values are outside the model. *)
Inductive value : Type :=
| VNone
| VBool (b : bool)
| VInt (z : Z)
| VStr (s : pystr)
| VList (xs : list value)
| VTuple (xs : list value)
| VDict (kvs : list (pystr * value)).

(** [bool(v)]. *)
Definition truthy (v : value) : bool :=
  match v with
  | VNone => false
  | VBool b => b
  | VInt z => negb (z =? 0)%Z
  | VStr s => match s with [] => false | _ => true end
  | VList xs | VTuple xs => match xs with [] => false | _ => true end
  | VDict kvs => match kvs with [] => false | _ => true end
  end.

(** [a == b].  [bool] is a subclass of [int], so [True == 1]; a list never
    equals a tuple; dictionaries compare without regard to order. *)
Fixpoint py_eq (a b : value) : bool :=
  match a, b with
  | VNone, VNone => true
  | VBool x, VBool y => Bool.eqb x y
  | VBool x, VInt y => (Z.b2z x =? y)%Z
  | VInt x, VBool y => (x =? Z.b2z y)%Z
  | VInt x, VInt y => (x =? y)%Z
  | VStr x, VStr y => pystr_eqb x y
  | VList xs, VList ys | VTuple xs, VTuple ys =>
      (fix go (xs ys : list value) : bool :=
         match xs, ys with
         | [], [] => true
         | x :: xs', y :: ys' => py_eq x y && go xs' ys'
         | _, _ => false
         end) xs ys
  | VDict kx, VDict ky =>
      (length kx =? length ky)%nat &&
      (fix go (kx : list (pystr * value)) : bool :=
         match kx with
         | [] => true
         | (k, v) :: kx' =>
             match dict_get k ky with
             | Some w => py_eq v w
             | None => false
             end && go kx'
         end) kx
  | _, _ => false
  end.

(** [x in xs] for a list or tuple [xs]. *)
Definition py_in (x : value) (xs : list value) : bool :=
  existsb (fun e => py_eq e x) xs.

(** [isinstance(x, (Mapping, list, tuple, set))]. *)
Definition _is_nested_structure (x : value) : bool :=
  match x with
  | VList _ | VTuple _ | VDict _ => true
  | _ => false
  end.

(** ** Utilities *)

(** [s.split(sep)] for a one-character separator. *)
Fixpoint split_on (sep : char) (s : pystr) : list pystr :=
  match s with
  | [] => [[]]
  | c :: s' =>
      if char_eqb c sep then [] :: split_on sep s'
      else match split_on sep s' with
           | p :: ps => (c :: p) :: ps
           | [] => [[c]]
           end
  end.

(** The loop of [_lookup] over the remaining parts of the path. *)
Fixpoint _lookup_parts (parts : list pystr) (cur : value) : value :=
  match parts with
  | [] => cur
  | part :: rest =>
      match cur with
      | VDict d =>
          match dict_get part d with
          | Some v => _lookup_parts rest v
          | None => VNone
          end
      | _ => VNone
      end
  end.

(** [_lookup(path, data)]: dotted-path lookup; a missing step gives [None]. *)
Definition _lookup (path : pystr) (data : dict value) : value :=
  _lookup_parts (split_on 46%N path) (VDict data).

(** One [(key, expected)] pair of [_conditions_match]: [true] when the pair
    passes. *)
Definition _condition_holds (expected actual : value) : bool :=
  match expected with
  | VList xs | VTuple xs => py_in actual xs
  | VBool true => truthy actual
  | VBool false => negb (truthy actual)
  | _ => py_eq actual expected
  end.

(** [_conditions_match(conds, context)]. *)
Definition _conditions_match (conds : dict value)
    (context : option (dict value)) : bool :=
  match conds with
  | [] => true
  | _ =>
      match context with
      | None => false
      | Some ctx =>
          forallb (fun kv => _condition_holds (snd kv) (_lookup (fst kv) ctx))
                  conds
      end
  end.

(** ** Exceptions *)

Inductive exn : Type :=
| ValueError | KeyError | IndexError | AttributeError | TypeError.

(** What a call gives back: a value, or a raised exception. *)
Inductive result (A : Type) : Type :=
| Ok (a : A)
| Raise (e : exn).
Arguments Raise {A} e.

Definition rbind {A B : Type} (r : result A) (k : A -> result B) : result B :=
  match r with
  | Ok a => k a
  | Raise e => Raise e
  end.

Notation "'let*' x ':=' r 'in' k" := (rbind r (fun x => k))
  (at level 10, x pattern, r at level 200, k at level 200).

(** Methods run on the object they are called on: a computation takes the
    object's state and gives back the outcome and the state it leaves. *)
Definition M (S A : Type) : Type := S -> result A * S.

Definition ret {S A : Type} (a : A) : M S A := fun s => (Ok a, s).

Definition bind {S A B : Type} (m : M S A) (k : A -> M S B) : M S B :=
  fun s =>
    match m s with
    | (Ok a, s') => k a s'
    | (Raise e, s') => (Raise e, s')
    end.

Definition gets {S A : Type} (f : S -> A) : M S A := fun s => (Ok (f s), s).

Definition modify {S : Type} (f : S -> S) : M S unit := fun s => (Ok tt, f s).

Definition raise {S A : Type} (e : exn) : M S A := fun s => (Raise e, s).

(** A call of a function that has no access to the object. *)
Definition lift {S A : Type} (r : result A) : M S A := fun s => (r, s).

(** Running a method: the outcome, and the object afterwards. *)
Definition outcome {S A : Type} (m : M S A) (s : S) : result A := fst (m s).
Definition after {S A : Type} (m : M S A) (s : S) : S := snd (m s).

Notation "x <- m ;; k" := (bind m (fun x => k))
  (at level 61, m at next level, right associativity).
Notation "m ;;; k" := (bind m (fun _ => k))
  (at level 61, right associativity).

(** [for x in xs: acc = body(acc, x)]. *)
Fixpoint for_fold {S X A : Type} (body : A -> X -> M S A) (xs : list X)
    (acc : A) : M S A :=
  match xs with
  | [] => ret acc
  | x :: xs' => acc' <- body acc x ;; for_fold body xs' acc'
  end.

(** [for x in xs: body(x)]. *)
Definition for_each {S X : Type} (body : X -> M S unit) (xs : list X)
    : M S unit :=
  for_fold (fun _ x => body x) xs tt.

(** ** Regular expressions of the [re] module *)

(** The fragment the source's patterns are written in: literal text, a
    repetition [c{min,}] of a character class (greedy, or lazy when followed
    by [?]), the capturing group and concatenation. *)
Inductive regex : Type :=
| Lit (s : pystr)
| Rep (greedy : bool) (min : nat) (cls : char -> bool)
| Group (r : regex)
| Cat (r1 r2 : regex).

Section Matcher.
Variable A : Type.

(** Exactly [n] characters of class [cls]; what is left of the input. *)
Fixpoint m_count (n : nat) (cls : char -> bool) (s : pystr) : option pystr :=
  match n with
  | O => Some s
  | S n' =>
      match s with
      | c :: s' => if cls c then m_count n' cls s' else None
      | [] => None
      end
  end.

(** [cls*] before the continuation [k], by backtracking: the greedy form
    tries one more character first, the lazy one tries [k] first. *)
Fixpoint m_star (greedy : bool) (cls : char -> bool) (s : pystr)
    (k : pystr -> option A) : option A :=
  match s with
  | c :: s' =>
      if cls c then
        if greedy then
          match m_star greedy cls s' k with
          | Some r => Some r
          | None => k s
          end
        else
          match k s with
          | Some r => Some r
          | None => m_star greedy cls s' k
          end
      else k s
  | [] => k []
  end.

(** The literal [p] at the start of [s]; what is left of the input. *)
Fixpoint m_lit (p s : pystr) : option pystr :=
  match p, s with
  | [], _ => Some s
  | x :: p', y :: s' => if char_eqb x y then m_lit p' s' else None
  | _ :: _, [] => None
  end.

(** The backtracking matcher: [r] at the start of [s], then [k] on the
    text of group 1 and the rest of the input. *)
Fixpoint m_re (r : regex) (g : option pystr) (s : pystr)
    (k : option pystr -> pystr -> option A) : option A :=
  match r with
  | Lit p =>
      match m_lit p s with
      | Some s' => k g s'
      | None => None
      end
  | Rep greedy n cls =>
      match m_count n cls s with
      | Some s' => m_star greedy cls s' (k g)
      | None => None
      end
  | Group r1 =>
      m_re r1 g s (fun _ s' => k (Some (firstn (length s - length s') s)) s')
  | Cat r1 r2 => m_re r1 g s (fun g' s' => m_re r2 g' s' k)
  end.
End Matcher.

(** A match object: [m.group(0)] and [m.group(1)]. *)
Record Match : Type := { group0 : pystr; group1 : pystr }.

(** [pattern.match] at the start of [s]: the match and the input after it. *)
Definition re_match_at (r : regex) (s : pystr) : option (Match * pystr) :=
  m_re r None s
    (fun g s' =>
       Some ({| group0 := firstn (length s - length s') s;
                group1 := match g with Some t => t | None => [] end |}, s')).

Section Sub.
Variables (St : Type) (r : regex).
(** The replacement callback; it may update the state of its closure and
    it may raise. *)
Variable f : St -> Match -> result (pystr * St).

(** [pattern.sub(f, s)]: leftmost matches, left to right, without overlap;
    [skip] characters of the last match are still to be passed over.  The
    patterns of this module match at least one character. *)
Fixpoint sub_loop (s : pystr) (skip : nat) (st : St) : result (pystr * St) :=
  match s with
  | [] => Ok ([], st)
  | c :: s' =>
      match skip with
      | S n => sub_loop s' n st
      | O =>
          match re_match_at r s with
          | Some (m, _) =>
              let* (out, st1) := f st m in
              let* (t, st2) := sub_loop s' (length (group0 m) - 1) st1 in
              Ok (out ++ t, st2)
          | None =>
              let* (t, st1) := sub_loop s' 0 st in
              Ok (c :: t, st1)
          end
      end
  end.

Definition re_sub (s : pystr) (st : St) : result (pystr * St) :=
  sub_loop s 0 st.
End Sub.

(** [_TRIPLE = \{\{\{(.*?)\}\}\}] with [re.DOTALL]. *)
Definition _TRIPLE : regex :=
  Cat (Lit [LBRACE; LBRACE; LBRACE])
      (Cat (Group (Rep false 0 (fun _ => true)))
           (Lit [RBRACE; RBRACE; RBRACE])).

Definition not_brace (c : char) : bool :=
  negb (char_eqb c LBRACE || char_eqb c RBRACE).

(** [_DOUBLE = \{\{\s*([^{}]+?)\s*\}\}]. *)
Definition _DOUBLE : regex :=
  Cat (Lit [LBRACE; LBRACE])
      (Cat (Rep true 0 isspace)
           (Cat (Group (Rep false 1 not_brace))
                (Cat (Rep true 0 isspace) (Lit [RBRACE; RBRACE])))).

Definition is_nl (c : char) : bool := char_eqb c NL.

(** [\n{3,}], the pattern of [_coerce_to_str]. *)
Definition _BLANKS : regex := Rep true 3 is_nl.

(** [re.sub(r"\n{3,}", "\n\n", s)]; the replacement is a constant, so the
    call cannot raise. *)
Definition two_newlines (st : unit) (_ : Match) : result (pystr * unit) :=
  Ok ([NL; NL], st).

Definition normalize_blank_lines (s : pystr) : pystr :=
  match re_sub _BLANKS two_newlines s tt with
  | Ok (t, _) => t
  | Raise _ => s
  end.

Section Program.

(** Two tables of the Python runtime that the source relies on and that are
    not part of it: [repr] of a list, tuple or dict (what [str] gives for a
    container), and the decimal value of the non-ASCII characters that
    [\d] and [int] accept. *)
Variable py_repr : value -> pystr.
Variable uni_digit : char -> option N.

(** [str(v)]. *)
Definition py_str (v : value) : pystr :=
  match v with
  | VNone => u "None"
  | VBool true => u "True"
  | VBool false => u "False"
  | VInt z => str_of_int z
  | VStr s => s
  | VList _ | VTuple _ | VDict _ => py_repr v
  end.

(** The value of a decimal digit, for [\d] and [int]: the ASCII digits,
    no other ASCII character and no private-use code point, and the table
    elsewhere. *)
Definition digit_value (c : char) : option N :=
  if ((48 <=? c) && (c <=? 57))%N then Some (c - 48)%N
  else if ((c <? 128) || (57344 <=? c) && (c <=? 63743))%N then None
  else uni_digit c.

Definition isdigit (c : char) : bool :=
  match digit_value c with Some _ => true | None => false end.

(** [int(s)] for a string of digits. *)
Definition int_of_digits (s : pystr) : N :=
  fold_left
    (fun acc c =>
       (10 * acc + match digit_value c with Some d => d | None => 0 end)%N)
    s 0%N.

(** [_PROT = (\d+)]. *)
Definition _PROT : regex :=
  Cat (Lit [SENTINEL]) (Cat (Group (Rep true 1 isdigit)) (Lit [SENTINEL])).

(** *** The macro engine *)

(** [protect_store]: appends the escaped text to [protected] and leaves a
    numbered placeholder. *)
Definition protect_store (protected : list pystr) (m : Match)
    : result (pystr * list pystr) :=
  let protected' := protected ++ [group1 m] in
  Ok ([SENTINEL] ++ str_of_nat (length protected' - 1) ++ [SENTINEL],
      protected').

(** [repl]: the looked-up value, or the span itself when there is none. *)
Definition repl (context : dict value) (st : unit) (m : Match)
    : result (pystr * unit) :=
  let key := strip (group1 m) in
  match _lookup key context with
  | VNone => Ok (group0 m, st)
  | val => Ok (py_str val, st)
  end.

(** [unprotect]: [protected[idx]], which raises [IndexError] out of
    range. *)
Definition unprotect (protected : list pystr) (st : unit) (m : Match)
    : result (pystr * unit) :=
  let idx := int_of_digits (group1 m) in
  match nth_error protected (N.to_nat idx) with
  | Some t => Ok (t, st)
  | None => Raise IndexError
  end.

(** [_apply_macros(text, context)]. *)
Definition _apply_macros (text : pystr) (context : dict value)
    : result pystr :=
  match text with
  | [] => Ok text
  | _ =>
      let* (text1, protected) := re_sub _TRIPLE protect_store text [] in
      let* (text2, _) := re_sub _DOUBLE (repl context) text1 tt in
      let* (text3, _) := re_sub _PROT (unprotect protected) text2 tt in
      Ok text3
  end.

(** *** Nested rendering *)

(** [_bullet_label(idx, ordered)]. *)
Definition _bullet_label (idx : nat) (ordered : bool) : pystr :=
  if ordered then str_of_nat idx ++ u "." else u "-".

Definition indent_of (level : nat) : pystr := str_mul (u "  ") level.

(** [for idx, x in enumerate(xs, start=idx): lines.extend(f idx x)]. *)
Fixpoint enum_extend (X : Type) (f : nat -> X -> list pystr) (idx : nat)
    (xs : list X) : list pystr :=
  match xs with
  | [] => []
  | x :: xs' => f idx x ++ enum_extend f (S idx) xs'
  end.

(** A labelled node [k: v], shared by the mapping loop and the single-key
    shorthand; [nested] are the lines of [v] one level down. *)
Definition labelled (indent bullet : pystr) (k : pystr) (v : value)
    (nested : list pystr) : list pystr :=
  let k_str := strip k in
  if _is_nested_structure v then
    (indent ++ bullet ++ u " " ++ k_str) :: nested
  else
    match v with
    | VNone => [indent ++ bullet ++ u " " ++ k_str]
    | _ => [indent ++ bullet ++ u " " ++ k_str ++ u ": " ++ strip (py_str v)]
    end.

(** [_render_nested(value, level, ordered=ordered)], together with the body
    of the loop of [_render_sequence_at_level] for one [item] at index
    [idx]. *)
Fixpoint _render_nested (ordered : bool) (v : value) (level : nat)
    {struct v} : list pystr :=
  match v with
  | VStr s => [indent_of level ++ _bullet_label 1 ordered ++ u " " ++ strip s]
  | VDict d =>
      enum_extend
        (fun idx '(k, w) =>
           labelled (indent_of level) (_bullet_label idx ordered) k w
                    (_render_nested ordered w (S level)))
        1 d
  | VList xs | VTuple xs =>
      enum_extend (fun idx item => _render_item ordered item level idx) 1 xs
  | _ =>
      [indent_of level ++ _bullet_label 1 ordered ++ u " "
         ++ strip (py_str v)]
  end
with _render_item (ordered : bool) (item : value) (level idx : nat)
    {struct item} : list pystr :=
  let indent := indent_of level in
  let bullet := _bullet_label idx ordered in
  match item with
  (* 1) single-key dict shorthand *)
  | VDict [(k, v)] =>
      labelled indent bullet k v (_render_nested ordered v (S level))
  (* 3) generic mapping: placeholder node, keys one level down *)
  | VDict d =>
      (indent ++ bullet)
        :: enum_extend
             (fun idx' '(k, w) =>
                labelled (indent_of (S level)) (_bullet_label idx' ordered)
                         k w (_render_nested ordered w (S (S level))))
             1 d
  | VList xs | VTuple xs =>
      match xs with
      (* 2) pair style: ["Label", children] *)
      | VStr label :: rest =>
          (indent ++ bullet ++ u " " ++ strip label)
            :: match rest with
               | [] => []     (* children = None *)
               | children :: _ =>
                   if _is_nested_structure children then
                     _render_nested ordered children (S level)
                   else
                     match children with
                     | VNone => []
                     | _ =>
                         [indent_of (S level) ++ _bullet_label 1 ordered
                            ++ u " " ++ strip (py_str children)]
                     end
               end
      (* 4) nested sequence without a label *)
      | _ =>
          (indent ++ bullet)
            :: enum_extend
                 (fun idx' it => _render_item ordered it (S level) idx') 1 xs
      end
  (* 5) plain scalar *)
  | _ =>
      match strip (py_str item) with
      | [] => []
      | s => [indent ++ bullet ++ u " " ++ s]
      end
  end.

(** [_render_mapping_at_level(d, level, ordered=ordered)]. *)
Definition _render_mapping_at_level (ordered : bool) (d : dict value)
    (level : nat) : list pystr :=
  _render_nested ordered (VDict d) level.

(** [_render_sequence_at_level(seq, level, ordered=ordered)]. *)
Definition _render_sequence_at_level (ordered : bool) (seq : list value)
    (level : nat) : list pystr :=
  enum_extend (fun idx item => _render_item ordered item level idx) 1 seq.

(** [_coerce_to_str(value, ordered=ordered)]. *)
Definition _coerce_to_str (ordered : bool) (v : value) : pystr :=
  match v with
  | VStr s => normalize_blank_lines (strip s)
  | VList _ | VTuple _ | VDict _ =>
      join [NL] (_render_nested ordered v 0)
  | _ => strip (py_str v)
  end.

(** ** Core dataclasses *)

(** The dataclass [Section]. *)
Record section : Type := mkSection {
  name : pystr;
  content : pystr;
  max_chars : option Z;
  title : option pystr;
  include_if : option (dict value);
  header_size : Z
}.

(** [self._header(context)]. *)
Definition _header (context : option (dict value))
    : M section (option pystr) :=
  t <- gets title ;;
  match t with
  | None | Some [] => ret None
  | Some ttl =>
      header_text <- match context with
                     | Some ctx => lift (_apply_macros ttl ctx)
                     | None => ret ttl
                     end ;;
      let stripped := lstrip header_text in
      if startswith [HASH] stripped then ret (Some header_text)
      else
        hs <- gets header_size ;;
        let lvl := Z.max 1 (Z.min 6 (if (hs =? 0)%Z then 1 else hs)) in
        ret (Some (strip (str_mul [HASH] (Z.to_nat lvl) ++ u " "
                            ++ header_text)))
  end.

(** The first step of [render]: the trimmed content, cut to [max_chars]
    characters and marked with an ellipsis when it is longer. *)
Definition truncated (c : pystr) (mc : option Z) : pystr :=
  let s := strip c in
  match mc with
  | Some n =>
      if negb (n =? 0)%Z && (Z.of_nat (length s) >? n)%Z
      then rstrip (slice_to s n) ++ [ELLIPSIS]
      else s
  | None => s
  end.

(** [self.render(context)]. *)
Definition render (context : option (dict value)) : M section pystr :=
  c <- gets content ;;
  mc <- gets max_chars ;;
  let s := truncated c mc in
  s <- match context with
       | Some ctx =>
           if contains (u "{{") s || contains (u "{{{") s
           then lift (_apply_macros s ctx)
           else ret s
       | None => ret s
       end ;;
  header <- _header context ;;
  match header with
  | Some ((_ :: _) as h) =>
      ret (match s with [] => [] | _ => h ++ [NL] ++ s end)
  | _ => ret s
  end.

(** The dataclass [PromptBuilder]. *)
Record PromptBuilder : Type := mkPromptBuilder {
  sections : dict section;
  meta : dict value;
  order : list pystr
}.

Definition set_sections (f : dict section -> dict section)
    (pb : PromptBuilder) : PromptBuilder :=
  mkPromptBuilder (f (sections pb)) (meta pb) (order pb).

Definition set_order_field (f : list pystr -> list pystr)
    (pb : PromptBuilder) : PromptBuilder :=
  mkPromptBuilder (sections pb) (meta pb) (f (order pb)).

(** A method call on the object stored under [key]: what the call does to
    the object is seen by the builder, which holds the same object. *)
Definition on_section {A : Type} (key : pystr) (m : M section A)
    : M PromptBuilder A :=
  fun pb =>
    match dict_get key (sections pb) with
    | None => (Raise KeyError, pb)
    | Some sec =>
        let (r, sec') := m sec in
        (r, set_sections (dict_set key sec') pb)
    end.

(** *** Section management *)

(** [self.set(name, value, title=..., max_chars=..., ordered=...,
    include_if=..., header_size=...)]. *)
Definition set (nm : pystr) (v : value) (ttl : option pystr)
    (mc : option Z) (ordered : bool) (inc : option (dict value))
    (hs : Z) : M PromptBuilder unit :=
  let rendered := _coerce_to_str ordered v in
  let sec := mkSection nm rendered mc ttl inc hs in
  modify (set_sections (dict_set nm sec)) ;;;
  ord <- gets order ;;
  if str_in nm ord then ret tt
  else modify (set_order_field (fun o => o ++ [nm])).

(** [self.append(name, more, ordered=...)]. *)
Definition append (nm : pystr) (more : value) (ordered : bool)
    : M PromptBuilder unit :=
  existing <- gets (fun pb => dict_get nm (sections pb)) ;;
  match existing with
  | None => set nm more None None ordered None 1
  | Some ex =>
      let added := _coerce_to_str ordered more in
      let new_content := strip (content ex ++ [NL] ++ added) in
      modify (set_sections
                (dict_set nm
                   (mkSection nm new_content (max_chars ex) (title ex)
                              (include_if ex) (header_size ex))))
  end.

(** [self.add_section(section, replace=..., copy=...)].  A deep copy holds
    the same field values as its original, so [copy] does not show in the
    stored value. *)
Definition add_section (sec : section) (replace copy : bool)
    : M PromptBuilder unit :=
  let s := if copy then sec else sec in
  secs <- gets sections ;;
  let exists_ := dict_mem (name s) secs in
  if exists_ && negb replace then raise ValueError
  else
    modify (set_sections (dict_set (name s) s)) ;;;
    if negb exists_
    then modify (set_order_field (fun o => o ++ [name s]))
    else ret tt.

(** [self.add_sections(sections, replace=..., copy=...)]. *)
Definition add_sections (secs : list section) (replace copy : bool)
    : M PromptBuilder unit :=
  for_each (fun sec => add_section sec replace copy) secs.

(** [PromptBuilder.make_section(...)]. *)
Definition make_section (nm : pystr) (v : value) (ttl : option pystr)
    (mc : option Z) (ordered : bool) (inc : option (dict value))
    (hs : Z) : section :=
  mkSection nm (_coerce_to_str ordered v) mc ttl inc hs.

(** [self.set_order(names)]. *)
Definition set_order (names : list pystr) : M PromptBuilder unit :=
  secs <- gets sections ;;
  modify (set_order_field
            (fun _ => filter (fun n => dict_mem n secs) names)) ;;;
  for_each
    (fun n =>
       ord <- gets order ;;
       if str_in n ord then ret tt
       else modify (set_order_field (fun o => o ++ [n])))
    (dict_keys secs).

(** [self.remove(name)]. *)
Definition remove (nm : pystr) : M PromptBuilder unit :=
  modify (set_sections (dict_pop nm)) ;;;
  modify (set_order_field (filter (fun n => negb (pystr_eqb n nm)))).

(** *** Compile *)

(** [sec.include_if and not _conditions_match(sec.include_if, context)]:
    the test under which [compile] passes a section over. *)
Definition skipped (inc : option (dict value))
    (context : option (dict value)) : bool :=
  match inc with
  | None | Some [] => false
  | Some conds => negb (_conditions_match conds context)
  end.

(** The body of the loop of [compile] for the section [sec] at hand. *)
Definition compile_section (context : option (dict value))
    (include_empty : bool) (parts : list pystr)
    : M section (list pystr) :=
  inc <- gets include_if ;;
  if skipped inc context then ret parts
  else
    rendered <- render context ;;
    match rendered with
    | _ :: _ => ret (parts ++ [rendered])
    | [] =>
        if include_empty then
          header <- _header context ;;
          ret (parts ++ [match header with Some h => h | None => [] end])
        else ret parts
    end.

(** [self.compile(context=..., joiner=..., include_empty=...)]. *)
Definition compile (context : option (dict value)) (joiner : pystr)
    (include_empty : bool) : M PromptBuilder pystr :=
  ord <- gets order ;;
  parts <- for_fold
             (fun parts nm =>
                on_section nm (compile_section context include_empty parts))
             ord [] ;;
  if include_empty then ret (join joiner parts)
  else ret (join joiner
              (filter (fun p => match p with [] => false | _ => true end)
                      parts)).

(** *** I/O helpers *)

Definition opt_value {A : Type} (f : A -> value) (o : option A) : value :=
  match o with
  | Some a => f a
  | None => VNone
  end.

(** The dictionary [to_dict] writes for one section. *)
Definition section_to_dict (v : section) : value :=
  VDict [(u "name", VStr (name v));
         (u "content", VStr (content v));
         (u "max_chars", opt_value VInt (max_chars v));
         (u "title", opt_value VStr (title v));
         (u "include_if", opt_value VDict (include_if v));
         (u "header_size", VInt (header_size v))].

(** [self.to_dict()]. *)
Definition to_dict : M PromptBuilder value :=
  m <- gets meta ;;
  o <- gets order ;;
  secs <- gets sections ;;
  ret (VDict [(u "meta", VDict m);
              (u "order", VList (map VStr o));
              (u "sections",
               VDict (fold_left
                        (fun acc '(k, v) => dict_set k (section_to_dict v) acc)
                        secs []))]).

(** [d.get(k, default)]. *)
Definition get_default (k : pystr) (d : dict value) (default : value)
    : value :=
  match dict_get k d with
  | Some v => v
  | None => default
  end.

(** The receiver of [.get] and [.items()] has to be a mapping. *)
Definition as_mapping (v : value) : result (dict value) :=
  match v with
  | VDict d => Ok d
  | _ => Raise AttributeError
  end.

(** The fields of [section] are typed as the dataclass annotates them; the
    source stores whatever it is given, and a value of another type is
    outside this model: it is reported as [TypeError]. *)
Definition as_str (v : value) : result pystr :=
  match v with VStr s => Ok s | _ => Raise TypeError end.

Definition as_int (v : value) : result Z :=
  match v with VInt z => Ok z | _ => Raise TypeError end.

Definition as_opt_int (v : value) : result (option Z) :=
  match v with
  | VNone => Ok None
  | VInt z => Ok (Some z)
  | _ => Raise TypeError
  end.

Definition as_opt_str (v : value) : result (option pystr) :=
  match v with
  | VNone => Ok None
  | VStr s => Ok (Some s)
  | _ => Raise TypeError
  end.

Definition as_opt_mapping (v : value) : result (option (dict value)) :=
  match v with
  | VNone => Ok None
  | VDict d => Ok (Some d)
  | _ => Raise TypeError
  end.

(** [list(v)] as a list of names. *)
Definition as_names (v : value) : result (list pystr) :=
  match v with
  | VList xs | VTuple xs =>
      fold_right
        (fun x acc => let* n := as_str x in let* ns := acc in Ok (n :: ns))
        (Ok []) xs
  | VDict d => Ok (dict_keys d)
  | VStr s => Ok (map (fun c => [c]) s)
  | _ => Raise TypeError
  end.

(** The [Section(...)] that [from_dict] builds from the entry [key: sd]. *)
Definition section_of_dict (key : pystr) (sd : value) : result section :=
  let* d := as_mapping sd in
  let* nm := as_str (get_default (u "name") d (VStr key)) in
  let* c := as_str (get_default (u "content") d (VStr [])) in
  let* mc := as_opt_int (get_default (u "max_chars") d VNone) in
  let* t := as_opt_str (get_default (u "title") d VNone) in
  let* inc := as_opt_mapping (get_default (u "include_if") d VNone) in
  let* hs := as_int (get_default (u "header_size") d (VInt 1)) in
  Ok (mkSection nm c mc t inc hs).

(** [PromptBuilder.from_dict(data)]. *)
Definition from_dict (data : value) : result PromptBuilder :=
  let* d := as_mapping data in
  let* m := match get_default (u "meta") d (VDict []) with
            | VDict kvs => Ok kvs
            | _ => Raise TypeError
            end in
  let* entries := as_mapping (get_default (u "sections") d (VDict [])) in
  let* secs :=
    fold_left
      (fun acc '(key, sd) =>
         let* secs := acc in
         let* sec := section_of_dict key sd in
         Ok (dict_set key sec secs))
      entries (Ok []) in
  let* o := match dict_get (u "order") d with
            | Some v => as_names v
            | None => Ok (dict_keys secs)
            end in
  Ok (mkPromptBuilder secs m o).

(** The invariant of the data model: the order list holds exactly the
    names of the section mapping, each once. *)
Definition order_inv (pb : PromptBuilder) : Prop :=
  NoDup (order pb) /\
  forall n, In n (order pb) <-> In n (dict_keys (sections pb)).

(** A builder as Python can hold it: no key twice in a dictionary. *)
Definition builder_wf (pb : PromptBuilder) : Prop :=
  dict_wf (sections pb).

(** ** The words of the specification, for comparison *)

(** What is written for a run of [run] newline characters: two of them
    when the run has three or more, the run itself otherwise. *)
Definition emit_run (run : nat) : pystr :=
  if (3 <=? run)%nat then [NL; NL] else repeat NL run.

(** Every run of three or more consecutive newline characters collapsed to
    exactly two; [run] counts the newlines of the run being read. *)
Fixpoint collapse_runs (s : pystr) (run : nat) : pystr :=
  match s with
  | [] => emit_run run
  | c :: s' =>
      if char_eqb c NL then collapse_runs s' (S run)
      else emit_run run ++ c :: collapse_runs s' 0
  end.

(** The payload of the per-level numbering example. *)
Definition workflow_payload : list value :=
  [VStr (u "Collect data");
   VDict [(u "Preprocess", VList [VStr (u "Clean"); VStr (u "Normalize")])];
   VStr (u "Analyze")].

(** The text of the literal-block example. *)
Definition literal_text : pystr := u "Literal: {{{ {{not_a_var}} }}}".

(** The length of the run of newlines [s] starts with, and what follows
    the run. *)
Fixpoint nl_run (s : pystr) : nat :=
  match s with
  | c :: s' => if is_nl c then S (nl_run s') else 0
  | [] => 0
  end.

Fixpoint after_run (s : pystr) : pystr :=
  match s with
  | c :: s' => if is_nl c then after_run s' else s
  | [] => []
  end.

(** What [collapse_runs] writes from the first character after a run on. *)
Definition tail_part (t : pystr) : pystr :=
  match t with
  | [] => []
  | c :: r => c :: collapse_runs r 0
  end.

(** ** Notions used in the statements *)

(** A computation that leaves the object as it found it. *)
Definition read_only {S A : Type} (m : M S A) : Prop :=
  forall s, after m s = s.

(** The state of a builder as the data model describes it. *)
Definition well_formed (pb : PromptBuilder) : Prop :=
  builder_wf pb /\ order_inv pb.

(** The second loop of [set_order]: the names still missing, appended. *)
Definition append_missing (ks o : list pystr) : list pystr :=
  fold_left (fun o n => if str_in n o then o else o ++ [n]) ks o.

(** Induction over values that reaches the elements of lists and tuples and
    the values of dictionaries. *)
Section ValueInduction.
Variable P : value -> Prop.
Hypothesis HNone : P VNone.
Hypothesis HBool : forall b, P (VBool b).
Hypothesis HInt : forall z, P (VInt z).
Hypothesis HStr : forall s, P (VStr s).
Hypothesis HList : forall xs, Forall P xs -> P (VList xs).
Hypothesis HTuple : forall xs, Forall P xs -> P (VTuple xs).
Hypothesis HDict :
  forall kvs, Forall (fun kv => P (snd kv)) kvs -> P (VDict kvs).

Fixpoint value_nested_ind (v : value) : P v :=
  match v with
  | VNone => HNone
  | VBool b => HBool b
  | VInt z => HInt z
  | VStr s => HStr s
  | VList xs =>
      HList ((fix go (xs : list value) : Forall P xs :=
                match xs with
                | [] => Forall_nil P
                | x :: xs' => Forall_cons x (value_nested_ind x) (go xs')
                end) xs)
  | VTuple xs =>
      HTuple ((fix go (xs : list value) : Forall P xs :=
                 match xs with
                 | [] => Forall_nil P
                 | x :: xs' => Forall_cons x (value_nested_ind x) (go xs')
                 end) xs)
  | VDict kvs =>
      HDict ((fix go (kvs : list (pystr * value))
                : Forall (fun kv => P (snd kv)) kvs :=
                match kvs with
                | [] => Forall_nil _
                | kv :: kvs' =>
                    Forall_cons kv (value_nested_ind (snd kv)) (go kvs')
                end) kvs)
  end.
End ValueInduction.

(** One nesting level deeper: two more spaces in front of a line. *)
Definition deeper (line : pystr) : pystr := u "  " ++ line.

(** A string with no whitespace at its start, at its end, at either. *)
Definition clean_head (s : pystr) : Prop :=
  match s with
  | [] => True
  | c :: _ => isspace c = false
  end.

Definition clean_last (s : pystr) : Prop := clean_head (rev s).

Definition trimmed (s : pystr) : Prop := clean_head s /\ clean_last s.

(** The builder with the one section "a", and a second section "b". *)
Definition one_section : PromptBuilder :=
  mkPromptBuilder [(u "a", mkSection (u "a") (u "A") None None None 1)]
                  [] [u "a"].

Definition section_b : section :=
  mkSection (u "b") (u "B") None None None 1.

(** ** Strings and dictionaries *)

Lemma pystr_eqb_eq (a b : pystr) : pystr_eqb a b = true <-> a = b.
Proof.
  revert b; induction a as [|x a IH]; intros [|y b]; simpl;
    try (split; [discriminate | congruence]); try tauto.
  unfold char_eqb. rewrite andb_true_iff, IH, N.eqb_eq.
  split; [intros [-> ->]; reflexivity | intros H; inversion H; auto].
Qed.

Lemma pystr_eqb_refl (a : pystr) : pystr_eqb a a = true.
Proof. apply pystr_eqb_eq; reflexivity. Qed.

Lemma pystr_eqb_neq (a b : pystr) : pystr_eqb a b = false <-> a <> b.
Proof.
  split.
  - intros H E. apply pystr_eqb_eq in E. congruence.
  - intros H. destruct (pystr_eqb a b) eqn:E; [|reflexivity].
    apply pystr_eqb_eq in E. contradiction.
Qed.

Lemma pystr_eqb_sym (a b : pystr) : pystr_eqb a b = pystr_eqb b a.
Proof.
  destruct (pystr_eqb a b) eqn:E.
  - apply pystr_eqb_eq in E; subst. symmetry; apply pystr_eqb_refl.
  - apply pystr_eqb_neq in E. symmetry; apply pystr_eqb_neq. congruence.
Qed.

Lemma str_in_In (x : pystr) (xs : list pystr) :
  str_in x xs = true <-> In x xs.
Proof.
  unfold str_in. rewrite existsb_exists. split.
  - intros (y & Hy & E). apply pystr_eqb_eq in E. subst; assumption.
  - intros H. exists x. split; [assumption | apply pystr_eqb_refl].
Qed.

Lemma str_in_not_In (x : pystr) (xs : list pystr) :
  str_in x xs = false <-> ~ In x xs.
Proof.
  rewrite <- str_in_In. destruct (str_in x xs); split; congruence.
Qed.

Section DictFacts.
Variable V : Type.
Implicit Types (d : dict V) (k : pystr) (v : V).

Lemma dict_get_In_keys k d :
  dict_mem k d = true <-> In k (dict_keys d).
Proof.
  unfold dict_mem. induction d as [|[k' v'] d IH]; simpl.
  - split; [discriminate | tauto].
  - destruct (pystr_eqb k k') eqn:E.
    + apply pystr_eqb_eq in E. subst. split; auto.
    + apply pystr_eqb_neq in E. rewrite IH. split; [auto|].
      intros [H|H]; [congruence | assumption].
Qed.

Lemma dict_get_None_keys k d :
  dict_get k d = None <-> ~ In k (dict_keys d).
Proof.
  rewrite <- dict_get_In_keys. unfold dict_mem.
  destruct (dict_get k d); split; congruence.
Qed.

Lemma dict_get_set_same k v d : dict_get k (dict_set k v d) = Some v.
Proof.
  induction d as [|[k' v'] d IH]; simpl.
  - now rewrite pystr_eqb_refl.
  - destruct (pystr_eqb k k') eqn:E; simpl; rewrite E; auto.
Qed.

Lemma dict_set_get_id k v d : dict_get k d = Some v -> dict_set k v d = d.
Proof.
  induction d as [|[k' v'] d IH]; simpl; [discriminate|].
  destruct (pystr_eqb k k'); intros H.
  - congruence.
  - now rewrite IH.
Qed.

Lemma dict_keys_set k v d :
  dict_keys (dict_set k v d) =
  if dict_mem k d then dict_keys d else dict_keys d ++ [k].
Proof.
  unfold dict_mem. induction d as [|[k' v'] d IH]; simpl; [reflexivity|].
  destruct (pystr_eqb k k') eqn:E; simpl; [reflexivity|].
  rewrite IH. destruct (dict_get k d); reflexivity.
Qed.

Lemma dict_set_fresh k v d :
  ~ In k (dict_keys d) -> dict_set k v d = d ++ [(k, v)].
Proof.
  induction d as [|[k' v'] d IH]; simpl; [reflexivity|].
  intros H. destruct (pystr_eqb k k') eqn:E.
  - apply pystr_eqb_eq in E. subst. tauto.
  - rewrite IH; tauto.
Qed.

Lemma dict_keys_pop k d :
  dict_wf d ->
  dict_keys (dict_pop k d) =
  filter (fun n => negb (pystr_eqb n k)) (dict_keys d).
Proof.
  unfold dict_wf. induction d as [|[k' v'] d IH]; simpl; [reflexivity|].
  intros H. inversion H as [|? ? Hk Hd]; subst.
  rewrite (pystr_eqb_sym k' k).
  destruct (pystr_eqb k k') eqn:E; simpl.
  - apply pystr_eqb_eq in E. subst k'.
    symmetry. apply forallb_filter_id. apply forallb_forall.
    intros n Hn. apply negb_true_iff, pystr_eqb_neq. congruence.
  - now rewrite IH.
Qed.
End DictFacts.

(** ** The monad *)

Lemma run_bind {S A B : Type} (m : M S A) (k : A -> M S B) (s : S) :
  bind m k s =
  match m s with
  | (Ok a, s') => k a s'
  | (Raise e, s') => (Raise e, s')
  end.
Proof. reflexivity. Qed.

Lemma read_only_ret {S A : Type} (a : A) : read_only (@ret S A a).
Proof. intros s; reflexivity. Qed.

Lemma read_only_gets {S A : Type} (f : S -> A) : read_only (gets f).
Proof. intros s; reflexivity. Qed.

Lemma read_only_lift {S A : Type} (r : result A) : read_only (@lift S A r).
Proof. intros s; reflexivity. Qed.

Lemma read_only_raise {S A : Type} (e : exn) : read_only (@raise S A e).
Proof. intros s; reflexivity. Qed.

Lemma read_only_bind {S A B : Type} (m : M S A) (k : A -> M S B) :
  read_only m -> (forall a, read_only (k a)) -> read_only (bind m k).
Proof.
  intros Hm Hk s. unfold after. rewrite run_bind.
  specialize (Hm s). unfold after in Hm.
  destruct (m s) as [[a|e] s']; simpl in *; subst s'.
  - apply Hk.
  - reflexivity.
Qed.

Lemma read_only_for_fold {S X A : Type} (body : A -> X -> M S A)
    (xs : list X) :
  (forall acc x, read_only (body acc x)) ->
  forall acc, read_only (for_fold body xs acc).
Proof.
  intros Hb. induction xs as [|x xs IH]; intros acc; simpl.
  - apply read_only_ret.
  - apply read_only_bind; auto.
Qed.

Create HintDb frame.
#[local] Hint Resolve read_only_ret read_only_gets read_only_lift
  read_only_raise : frame.

Ltac frame :=
  repeat first
    [ solve [auto with frame]
    | progress cbv zeta
    | match goal with
      | |- read_only (bind _ _) => apply read_only_bind; [|intros ?]
      | |- read_only (match ?x with _ => _ end) => destruct x
      | |- read_only (if ?b then _ else _) => destruct b
      end ].

Lemma read_only_header context : read_only (_header context).
Proof. unfold _header. frame. Qed.
#[local] Hint Resolve read_only_header : frame.

Lemma read_only_render context : read_only (render context).
Proof. unfold render. frame. Qed.
#[local] Hint Resolve read_only_render : frame.

Lemma read_only_compile_section context include_empty parts :
  read_only (compile_section context include_empty parts).
Proof. unfold compile_section. frame. Qed.

(** A read-only method called on a stored section leaves the builder as it
    was: writing the same object back changes nothing. *)
Lemma read_only_on_section {A : Type} (key : pystr) (m : M section A) :
  read_only m -> read_only (on_section key m).
Proof.
  intros Hm pb. unfold after, on_section.
  destruct (dict_get key (sections pb)) as [sec|] eqn:E; [|reflexivity].
  specialize (Hm sec). unfold after in Hm.
  destruct (m sec) as [r sec']. simpl in *. subst sec'.
  unfold set_sections. rewrite (dict_set_get_id _ _ E).
  destruct pb; reflexivity.
Qed.

(** ** The nested renderer *)

(** C1: the payload ["Collect data", {"Preprocess": ["Clean",
    "Normalize"]}, "Analyze"] rendered with [ordered=True] gives exactly
    the lines "1. Collect data", "2. Preprocess", "  1. Clean",
    "  2. Normalize", "3. Analyze": two spaces per level, and the numbering
    starts again at 1 under "Preprocess" while the outer count goes on to
    3.  The text [set] stores is these lines joined by newlines. *)
Theorem render_workflow_per_level_numbering :
  _render_sequence_at_level true workflow_payload 0
    = [u "1. Collect data"; u "2. Preprocess"; u "  1. Clean";
       u "  2. Normalize"; u "3. Analyze"]
  /\ _render_nested true (VList workflow_payload) 0
    = _render_sequence_at_level true workflow_payload 0
  /\ _coerce_to_str true (VList workflow_payload)
    = join [NL] [u "1. Collect data"; u "2. Preprocess"; u "  1. Clean";
                 u "  2. Normalize"; u "3. Analyze"].
Proof. repeat split; vm_compute; reflexivity. Qed.

(** ** The macro engine *)

(** C2, as amended: interpolating "Literal: {{{ {{not_a_var}} }}}" gives
    "Literal:  {{not_a_var}} " under every context: the text between the
    triple delimiters comes back verbatim, both of its spaces included,
    and is not interpolated. *)
Theorem literal_block_restored_verbatim (context : dict value) :
  _apply_macros literal_text context = Ok (u "Literal:  {{not_a_var}} ").
Proof. vm_compute. reflexivity. Qed.

(** C7: on the text made of the sentinel U+E000, the digit 0 and the
    sentinel again, [_apply_macros] raises [IndexError] under every
    context: the placeholder pattern matches, and no escaped block was
    recorded. *)
Theorem apply_macros_raises_on_sentinel (context : dict value) :
  _apply_macros [SENTINEL; 48%N; SENTINEL] context = Raise IndexError.
Proof. vm_compute. reflexivity. Qed.

(** ** Section management *)

Lemma add_section_run (sec : section) (replace copy : bool)
    (pb : PromptBuilder) :
  add_section sec replace copy pb =
  if dict_mem (name sec) (sections pb) && negb replace
  then (Raise ValueError, pb)
  else (Ok tt,
        mkPromptBuilder
          (dict_set (name sec) sec (sections pb)) (meta pb)
          (if dict_mem (name sec) (sections pb) then order pb
           else order pb ++ [name sec])).
Proof.
  unfold add_section.
  replace (if copy then sec else sec) with sec by (destruct copy; reflexivity).
  destruct pb as [secs m o]. cbn.
  destruct (dict_mem (name sec) secs), replace; reflexivity.
Qed.

(** C8: [add_section] raises exactly when the name is already there and
    [replace] is false, and then the builder is as before; otherwise it
    returns, the section is stored under its name, the other sections and
    the metadata are kept, and the name is appended to the order list only
    when it was new. *)
Theorem add_section_duplicate_policy (sec : section) (replace copy : bool)
    (pb : PromptBuilder) :
  let present := dict_mem (name sec) (sections pb) in
  let call := add_section sec replace copy in
  (outcome call pb = Raise ValueError <-> present = true /\ replace = false)
  /\ (outcome call pb = Ok tt <-> ~ (present = true /\ replace = false))
  /\ after call pb =
       (if present && negb replace then pb
        else mkPromptBuilder
               (dict_set (name sec) sec (sections pb)) (meta pb)
               (if present then order pb else order pb ++ [name sec]))
  /\ dict_get (name sec) (dict_set (name sec) sec (sections pb)) = Some sec.
Proof.
  intros present call. subst call. unfold outcome, after.
  rewrite add_section_run. fold present.
  split; [|split; [|split]].
  - destruct present, replace; cbn; split;
      try discriminate; try (intros [? ?]; discriminate); auto.
  - destruct present, replace; cbn; split;
      solve [ discriminate
            | intros _ [? ?]; discriminate
            | intros _; reflexivity
            | intros H; exfalso; apply H; auto ].
  - destruct present, replace; reflexivity.
  - apply dict_get_set_same.
Qed.

(** ** Compile *)

(** C10: [compile] is read-only.  Whatever the context, the joiner and
    [include_empty], and whether it returns or raises, the builder it ran
    on has the same section mapping, order list and metadata afterwards;
    the [render] and [_header] calls it makes leave the section they run
    on with the same fields. *)
Theorem compile_read_only (context : option (dict value)) (joiner : pystr)
    (include_empty : bool) (pb : PromptBuilder) :
  after (compile context joiner include_empty) pb = pb
  /\ (forall sec, after (render context) sec = sec)
  /\ (forall sec, after (_header context) sec = sec).
Proof.
  split; [|split].
  - revert pb. change (read_only (compile context joiner include_empty)).
    unfold compile.
    apply read_only_bind; [apply read_only_gets | intros ord].
    apply read_only_bind.
    + apply read_only_for_fold. intros acc nm.
      apply read_only_on_section, read_only_compile_section.
    + intros parts. destruct include_empty; apply read_only_ret.
  - apply read_only_render.
  - apply read_only_header.
Qed.

(** ** Blank-line normalisation *)

Lemma m_star_greedy_total (A : Type) (cls : char -> bool)
    (k : pystr -> option A) (s : pystr) :
  (forall t, k t <> None) ->
  exists t, m_star true cls s k = k t /\
            t = (fix drop (s : pystr) : pystr :=
                   match s with
                   | c :: s' => if cls c then drop s' else s
                   | [] => []
                   end) s.
Proof.
  intros Hk. induction s as [|c s IH]; simpl.
  - eauto.
  - destruct (cls c); [|eauto].
    destruct IH as (t & E & Ht). exists t. split; [|assumption].
    rewrite E. destruct (k t) eqn:Ek; [reflexivity|]. now apply Hk in Ek.
Qed.

Lemma after_run_length (s : pystr) :
  length s = nl_run s + length (after_run s).
Proof.
  induction s as [|c s IH]; simpl; [reflexivity|].
  destruct (is_nl c); simpl; lia.
Qed.

Lemma skipn_nl_run (s : pystr) : skipn (nl_run s) s = after_run s.
Proof.
  induction s as [|c s IH]; simpl; [reflexivity|].
  destruct (is_nl c); simpl; auto.
Qed.

Lemma m_count_nl (n : nat) (s : pystr) :
  m_count n is_nl s = if (n <=? nl_run s)%nat then Some (skipn n s) else None.
Proof.
  revert s; induction n as [|n IH]; intros s; simpl; [reflexivity|].
  destruct s as [|c s]; simpl; [reflexivity|].
  destruct (is_nl c); simpl; [apply IH | reflexivity].
Qed.

Lemma after_run_skipn (n : nat) (s : pystr) :
  n <= nl_run s -> after_run (skipn n s) = after_run s.
Proof.
  revert s; induction n as [|n IH]; intros s H; simpl; [reflexivity|].
  destruct s as [|c s]; simpl in *; [reflexivity|].
  destruct (is_nl c); [apply IH; lia | lia].
Qed.

(** Where [\n{3,}] matches, and what it takes: the whole run. *)
Lemma blanks_match_at (s : pystr) :
  re_match_at _BLANKS s =
  if (3 <=? nl_run s)%nat
  then Some ({| group0 := firstn (nl_run s) s; group1 := [] |}, after_run s)
  else None.
Proof.
  unfold re_match_at, _BLANKS. cbn [m_re].
  rewrite m_count_nl.
  destruct (3 <=? nl_run s)%nat eqn:E; [|reflexivity].
  apply Nat.leb_le in E.
  match goal with |- m_star true is_nl ?s0 ?k = _ =>
    destruct (@m_star_greedy_total _ is_nl k s0) as (t & Et & Ht)
  end; [discriminate|].
  rewrite Et. change (t = after_run (skipn 3 s)) in Ht.
  rewrite after_run_skipn in Ht by assumption. subst t.
  do 3 f_equal. f_equal. pose proof (after_run_length s). lia.
Qed.

Lemma sub_loop_skip (St : Type) (r : regex)
    (f : St -> Match -> result (pystr * St)) (s : pystr) :
  forall n st, n <= length s ->
    sub_loop r f s n st = sub_loop r f (skipn n s) 0 st.
Proof.
  induction s as [|c s IH]; intros [|n] st H; simpl in *;
    try reflexivity; try lia.
  apply IH. lia.
Qed.

Lemma collapse_runs_split (s : pystr) :
  forall run,
    collapse_runs s run = emit_run (run + nl_run s) ++ tail_part (after_run s).
Proof.
  induction s as [|c s IH]; intros run; simpl.
  - now rewrite Nat.add_0_r, app_nil_r.
  - fold (is_nl c). destruct (is_nl c); simpl.
    + rewrite IH. do 2 f_equal. lia.
    + now rewrite Nat.add_0_r.
Qed.

Lemma nl_run_after_run (s : pystr) : nl_run (after_run s) = 0.
Proof.
  induction s as [|c s IH]; simpl; [reflexivity|].
  destruct (is_nl c) eqn:E; simpl; [assumption | now rewrite E].
Qed.

Lemma after_run_idem (s : pystr) : after_run (after_run s) = after_run s.
Proof.
  induction s as [|c s IH]; simpl; [reflexivity|].
  destruct (is_nl c) eqn:E; simpl; [assumption | now rewrite E].
Qed.

Lemma after_run_le (s : pystr) : length (after_run s) <= length s.
Proof. pose proof (after_run_length s). lia. Qed.

Lemma blanks_sub_loop (n : nat) :
  forall s, length s <= n ->
    sub_loop _BLANKS two_newlines s 0 tt = Ok (collapse_runs s 0, tt).
Proof.
  induction n as [|n IH]; intros [|c s] H; simpl in H; try reflexivity;
    try lia.
  cbn [sub_loop]. rewrite blanks_match_at.
  rewrite (collapse_runs_split (c :: s) 0). cbn [Nat.add].
  destruct (3 <=? nl_run (c :: s))%nat eqn:E3.
  - cbn [two_newlines rbind group0].
    assert (Hc : is_nl c = true).
    { simpl in E3. destruct (is_nl c); [reflexivity | discriminate]. }
    assert (Hk : nl_run (c :: s) = S (nl_run s)) by (simpl; now rewrite Hc).
    assert (Ha : after_run (c :: s) = after_run s) by (simpl; now rewrite Hc).
    rewrite length_firstn, Hk, Ha.
    pose proof (after_run_length s) as Hl.
    replace (Nat.min (S (nl_run s)) (length (c :: s)) - 1) with (nl_run s)
      by (simpl; lia).
    rewrite sub_loop_skip by lia. rewrite skipn_nl_run.
    rewrite IH by (pose proof (after_run_le s); lia).
    rewrite (collapse_runs_split (after_run s) 0).
    rewrite nl_run_after_run, after_run_idem. cbn [Nat.add rbind].
    unfold emit_run. rewrite <- Hk, E3. reflexivity.
  - rewrite IH by lia. cbn [rbind].
    apply Nat.leb_gt in E3. simpl in E3 |- *.
    destruct (is_nl c) eqn:Hc.
    + unfold is_nl, char_eqb in Hc. apply N.eqb_eq in Hc. subst c.
      rewrite (collapse_runs_split s 0). cbn [Nat.add].
      unfold emit_run.
      destruct (3 <=? S (nl_run s))%nat eqn:E1;
        [apply Nat.leb_le in E1; lia|].
      destruct (3 <=? nl_run s)%nat eqn:E2;
        [apply Nat.leb_le in E2; lia|].
      reflexivity.
    + reflexivity.
Qed.

(** The substitution of [_coerce_to_str] does what the specification
    says of it. *)
Lemma normalize_blank_lines_collapses (s : pystr) :
  normalize_blank_lines s = collapse_runs s 0.
Proof.
  unfold normalize_blank_lines, re_sub.
  now rewrite (@blanks_sub_loop (length s) s (le_n _)).
Qed.

(** ** Stored content *)

Lemma set_run (nm : pystr) (v : value) (ttl : option pystr)
    (mc : option Z) (ordered : bool) (inc : option (dict value)) (hs : Z)
    (pb : PromptBuilder) :
  set nm v ttl mc ordered inc hs pb =
  (Ok tt,
   mkPromptBuilder
     (dict_set nm (mkSection nm (_coerce_to_str ordered v) mc ttl inc hs)
               (sections pb))
     (meta pb)
     (if str_in nm (order pb) then order pb else order pb ++ [nm])).
Proof.
  destruct pb as [secs m o].
  cbv [set bind modify gets set_sections set_order_field sections meta order].
  destruct (str_in nm o); reflexivity.
Qed.

(** C9: for a string payload [p], [set] stores the section whose content
    is [p] with leading and trailing whitespace stripped and every run of
    three or more newlines collapsed to exactly two; this is not always
    [p] itself, as the payload " a" shows. *)
Theorem set_stores_normalized_string (nm p : pystr) (ttl : option pystr)
    (mc : option Z) (ordered : bool) (inc : option (dict value)) (hs : Z)
    (pb : PromptBuilder) :
  outcome (set nm (VStr p) ttl mc ordered inc hs) pb = Ok tt
  /\ dict_get nm (sections (after (set nm (VStr p) ttl mc ordered inc hs) pb))
     = Some (mkSection nm (collapse_runs (strip p) 0) mc ttl inc hs)
  /\ _coerce_to_str ordered (VStr p) = collapse_runs (strip p) 0
  /\ _coerce_to_str ordered (VStr (u " a")) <> u " a".
Proof.
  unfold outcome, after. rewrite set_run. cbn [fst snd sections].
  rewrite dict_get_set_same. cbn [_coerce_to_str].
  rewrite normalize_blank_lines_collapses.
  repeat split. vm_compute. discriminate.
Qed.

(** ** Truncation *)

Lemma startswith_shorter (a b c : char) (s : pystr) :
  startswith [a; b; c] s = true -> startswith [a; b] s = true.
Proof.
  destruct s as [|x [|y [|z s]]]; cbn [startswith];
    rewrite ?andb_true_iff; intuition congruence.
Qed.

Lemma contains_triple_double (s : pystr) :
  contains (u "{{{") s = true -> contains (u "{{") s = true.
Proof.
  change (u "{{{") with [LBRACE; LBRACE; LBRACE].
  change (u "{{") with [LBRACE; LBRACE].
  induction s as [|c s IH]; [discriminate|].
  cbn [contains]. rewrite !orb_true_iff.
  intros [H|H]; [left; now apply startswith_shorter in H | right; auto].
Qed.

Lemma truncated_over (c : pystr) (n : Z) :
  (0 < n)%Z -> (n < Z.of_nat (length (strip c)))%Z ->
  truncated c (Some n)
  = rstrip (firstn (Z.to_nat n) (strip c)) ++ [ELLIPSIS].
Proof.
  intros Hn Hl. unfold truncated, slice_to.
  destruct (n =? 0)%Z eqn:E0; [apply Z.eqb_eq in E0; lia|].
  destruct (Z.of_nat (length (strip c)) >? n)%Z eqn:E1;
    [|rewrite Z.gtb_ltb in E1; apply Z.ltb_ge in E1; lia].
  destruct (n <? 0)%Z eqn:E2; [apply Z.ltb_lt in E2; lia|].
  reflexivity.
Qed.

(** ** Conditional inclusion *)

(** Case analysis on the innermost scrutinee first. *)
Ltac split_matches :=
  repeat match goal with
         | |- context [match ?x with _ => _ end] =>
             lazymatch x with
             | context [match _ with _ => _ end] => fail
             | _ => destruct x
             end
         end.

(** What [_header] and [render] return does not depend on [include_if]. *)
Lemma header_ignores_include_if context nm c mc ttl hs inc inc' :
  outcome (_header context) (mkSection nm c mc ttl inc hs)
  = outcome (_header context) (mkSection nm c mc ttl inc' hs).
Proof.
  unfold outcome.
  cbv [_header bind gets ret lift title header_size].
  split_matches; reflexivity.
Qed.

Lemma render_ignores_include_if context nm c mc ttl hs inc inc' :
  outcome (render context) (mkSection nm c mc ttl inc hs)
  = outcome (render context) (mkSection nm c mc ttl inc' hs).
Proof.
  unfold outcome.
  cbv [render _header bind gets ret lift title header_size content
       max_chars].
  split_matches; reflexivity.
Qed.

Lemma bind_read_only {S A B : Type} (m : M S A) (k : A -> M S B) (s : S) :
  read_only m ->
  bind m k s =
  match outcome m s with
  | Ok a => k a s
  | Raise e => (Raise e, s)
  end.
Proof.
  intros Hm. specialize (Hm s). unfold after, outcome in *. rewrite run_bind.
  destruct (m s) as [[a|e] s']; simpl in *; now subst.
Qed.

(** What the body of the loop of [compile] contributes for one section. *)
Lemma compile_section_outcome context include_empty parts sec :
  outcome (compile_section context include_empty parts) sec =
  if skipped (include_if sec) context then Ok parts
  else
    match outcome (render context) sec with
    | Ok [] =>
        if include_empty then
          match outcome (_header context) sec with
          | Ok header =>
              Ok (parts ++ [match header with Some h => h | None => [] end])
          | Raise e => Raise e
          end
        else Ok parts
    | Ok rendered => Ok (parts ++ [rendered])
    | Raise e => Raise e
    end.
Proof.
  unfold compile_section. unfold outcome at 1.
  rewrite bind_read_only by apply read_only_gets.
  unfold outcome at 1. cbn [gets fst].
  destruct (skipped (include_if sec) context); [reflexivity|].
  rewrite bind_read_only by apply read_only_render.
  destruct (outcome (render context) sec) as [[|c r]|e]; try reflexivity.
  destruct include_empty; [|reflexivity].
  rewrite bind_read_only by apply read_only_header.
  destruct (outcome (_header context) sec); reflexivity.
Qed.

(** [compile] on a builder that holds one section. *)
Lemma compile_single_outcome context joiner include_empty nm sec m :
  outcome (compile context joiner include_empty)
          (mkPromptBuilder [(nm, sec)] m [nm]) =
  match outcome (compile_section context include_empty []) sec with
  | Ok parts =>
      Ok (if include_empty then join joiner parts
          else join joiner
                 (filter (fun p => match p with [] => false | _ => true end)
                         parts))
  | Raise e => Raise e
  end.
Proof.
  unfold outcome.
  cbv [compile bind gets order for_fold on_section sections dict_get].
  rewrite pystr_eqb_refl.
  destruct (compile_section context include_empty [] sec) as [[parts|e] sec'];
    cbn; [destruct include_empty|]; reflexivity.
Qed.

Lemma skipped_list_membership key expected context :
  skipped (Some [(key, VList expected)]) context =
  negb match context with
       | Some ctx => py_in (_lookup key ctx) expected
       | None => false
       end.
Proof.
  unfold skipped, _conditions_match.
  destruct context as [ctx|]; cbn; [|reflexivity].
  now rewrite andb_true_r.
Qed.

(** ** Serialisation round trip *)

Lemma section_of_dict_to_dict (key : pystr) (v : section) :
  section_of_dict key (section_to_dict v) = Ok v.
Proof.
  destruct v as [nm c [mc|] [ttl|] [inc|] hs]; vm_compute; reflexivity.
Qed.

Lemma dict_keys_app (V : Type) (a b : dict V) :
  dict_keys (a ++ b) = dict_keys a ++ dict_keys b.
Proof. apply map_app. Qed.

Lemma NoDup_app_head (x : pystr) (a b : list pystr) :
  NoDup (a ++ x :: b) -> ~ In x a /\ NoDup ((a ++ [x]) ++ b).
Proof.
  intros H. split.
  - apply NoDup_remove_2 in H. intros Hin. apply H, in_or_app. now left.
  - now rewrite <- app_assoc.
Qed.

(** The dictionary comprehension of [to_dict]: one entry per section, in
    the order of the mapping. *)
Lemma to_dict_entries (d acc : dict section) :
  NoDup (dict_keys acc ++ dict_keys d) ->
  fold_left (fun acc '(k, v) => dict_set k (section_to_dict v) acc) d
            (map (fun '(k, v) => (k, section_to_dict v)) acc)
  = map (fun '(k, v) => (k, section_to_dict v)) (acc ++ d).
Proof.
  revert acc. induction d as [|[k v] d IH]; intros acc H; cbn [fold_left].
  - now rewrite app_nil_r.
  - cbn [dict_keys map fst] in H. apply NoDup_app_head in H as [Hk Hn].
    rewrite dict_set_fresh.
    + specialize (IH (acc ++ [(k, v)])).
      rewrite map_app in IH. cbn [map] in IH.
      rewrite IH; [now rewrite <- app_assoc|].
      now rewrite dict_keys_app.
    + unfold dict_keys in *. rewrite map_map.
      erewrite map_ext; [exact Hk|]. now intros [? ?].
Qed.

(** The loop of [from_dict] over those entries gives the sections back. *)
Lemma from_dict_entries (d acc : dict section) :
  NoDup (dict_keys acc ++ dict_keys d) ->
  fold_left
    (fun acc '(key, sd) =>
       let* secs := acc in
       let* sec := section_of_dict key sd in
       Ok (dict_set key sec secs))
    (map (fun '(k, v) => (k, section_to_dict v)) d) (Ok acc)
  = Ok (acc ++ d).
Proof.
  revert acc. induction d as [|[k v] d IH]; intros acc H;
    cbn [fold_left map].
  - now rewrite app_nil_r.
  - cbn [dict_keys map fst] in H. apply NoDup_app_head in H as [Hk Hn].
    cbn [rbind]. rewrite section_of_dict_to_dict. cbn [rbind].
    rewrite dict_set_fresh by exact Hk.
    rewrite IH; [now rewrite <- app_assoc|].
    now rewrite dict_keys_app.
Qed.

Lemma as_names_of_names (o : list pystr) :
  as_names (VList (map VStr o)) = Ok o.
Proof.
  cbn [as_names]. induction o as [|n o IH]; cbn [map fold_right];
    [reflexivity|].
  rewrite IH. reflexivity.
Qed.

(** Deserialising what [to_dict] wrote gives the builder back. *)
Lemma from_dict_to_dict (pb : PromptBuilder) :
  builder_wf pb ->
  exists d, outcome to_dict pb = Ok d /\ from_dict d = Ok pb.
Proof.
  intros Hwf. destruct pb as [secs m o]. unfold builder_wf in Hwf.
  cbn [sections] in Hwf.
  eexists. split; [reflexivity|].
  cbn [to_dict bind gets meta order sections ret fst snd].
  unfold from_dict. cbn [as_mapping rbind].
  change (get_default (u "meta") _ (VDict [])) with (VDict m).
  cbn [rbind].
  pose proof (to_dict_entries secs [] Hwf) as Hto. cbn [map app] in Hto.
  rewrite Hto.
  change (get_default (u "sections") _ (VDict []))
    with (VDict (map (fun '(k, v) => (k, section_to_dict v)) secs)).
  cbn [as_mapping rbind].
  pose proof (from_dict_entries secs [] Hwf) as Hfrom.
  unfold dict in Hfrom |- *. rewrite Hfrom. cbn [app rbind].
  change (dict_get (u "order") _) with (Some (VList (map VStr o))).
  cbv beta iota. rewrite as_names_of_names. reflexivity.
Qed.

(** C3: serialising a builder with [to_dict] and reading the result back
    with [from_dict] gives a builder on which [compile], with the same
    context, joiner and [include_empty], returns the same string as on the
    original (and raises the same exception where the original does). *)
Theorem roundtrip_compile_identical (pb : PromptBuilder)
    (context : option (dict value)) (joiner : pystr)
    (include_empty : bool) :
  builder_wf pb ->
  exists d pb',
    outcome to_dict pb = Ok d
    /\ from_dict d = Ok pb'
    /\ outcome (compile context joiner include_empty) pb'
       = outcome (compile context joiner include_empty) pb.
Proof.
  intros Hwf. destruct (from_dict_to_dict Hwf) as (d & Hd & Hfrom).
  exists d, pb. auto.
Qed.

(** ** The order invariant *)

Lemma NoDup_snoc (x : pystr) (l : list pystr) :
  NoDup l -> ~ In x l -> NoDup (l ++ [x]).
Proof.
  intros Hl Hx. induction Hl as [|y l Hy Hl IH]; cbn.
  - constructor; [tauto | constructor].
  - constructor.
    + rewrite in_app_iff. cbn. intros [H|[H|[]]]; [tauto|].
      subst. apply Hx. now left.
    + apply IH. intros H. apply Hx. now right.
Qed.

Lemma dict_wf_set (V : Type) (k : pystr) (v : V) (d : dict V) :
  dict_wf d -> dict_wf (dict_set k v d).
Proof.
  unfold dict_wf. intros H. rewrite dict_keys_set.
  destruct (dict_mem k d) eqn:E; [assumption|].
  apply NoDup_snoc; [assumption|].
  rewrite <- dict_get_In_keys. congruence.
Qed.

Lemma dict_wf_pop (V : Type) (k : pystr) (d : dict V) :
  dict_wf d -> dict_wf (dict_pop k d).
Proof.
  intros H. unfold dict_wf. rewrite dict_keys_pop by assumption.
  now apply NoDup_filter.
Qed.

(** Storing a section under [nm] and appending [nm] to the order list when
    it is not there yet: the step shared by [set] and [add_section]. *)
Lemma store_preserves (pb : PromptBuilder) (nm : pystr) (sec : section)
    (b : bool) :
  well_formed pb ->
  (b = true <-> In nm (order pb)) ->
  well_formed
    (mkPromptBuilder (dict_set nm sec (sections pb)) (meta pb)
                     (if b then order pb else order pb ++ [nm])).
Proof.
  destruct pb as [secs m o]. unfold well_formed, builder_wf, order_inv.
  cbn [sections meta order]. intros (Hwf & Hnd & Hin) Hb.
  split; [now apply dict_wf_set | ].
  rewrite dict_keys_set.
  assert (Hm : dict_mem nm secs = b).
  { destruct b, (dict_mem nm secs) eqn:E; try reflexivity.
    - apply proj1 in Hb. specialize (Hb eq_refl).
      apply Hin, dict_get_In_keys in Hb. congruence.
    - apply dict_get_In_keys, Hin, Hb in E. discriminate. }
  rewrite Hm. destruct b.
  - split; assumption.
  - split.
    + apply NoDup_snoc; [assumption|]. intros H. apply Hb in H. discriminate.
    + intros n. rewrite !in_app_iff, Hin. reflexivity.
Qed.

Lemma set_preserves nm v ttl mc ordered inc hs pb :
  well_formed pb -> well_formed (after (set nm v ttl mc ordered inc hs) pb).
Proof.
  intros H. unfold after. rewrite set_run. cbn [snd].
  apply store_preserves; [assumption | apply str_in_In].
Qed.

Lemma append_preserves nm more ordered pb :
  well_formed pb -> well_formed (after (append nm more ordered) pb).
Proof.
  intros H. unfold after, append. rewrite run_bind. cbn [gets].
  destruct (dict_get nm (sections pb)) as [ex|] eqn:E.
  - cbn [modify snd]. destruct pb as [secs m o].
    cbn [set_sections sections meta order] in *.
    pose proof (@store_preserves (mkPromptBuilder secs m o) nm
                  (mkSection nm
                     (strip (content ex ++ [NL] ++ _coerce_to_str ordered more))
                     (max_chars ex) (title ex) (include_if ex)
                     (header_size ex)) true H) as Hs.
    cbn [sections meta order] in Hs. apply Hs.
    split; [intros _ | reflexivity].
    apply H. cbn [sections]. apply dict_get_In_keys.
    unfold dict_mem. now rewrite E.
  - now apply set_preserves.
Qed.

Lemma add_section_preserves sec replace copy pb :
  well_formed pb -> well_formed (after (add_section sec replace copy) pb).
Proof.
  intros H. unfold after. rewrite add_section_run.
  destruct (dict_mem (name sec) (sections pb) && negb replace) eqn:E;
    cbn [snd]; [assumption|].
  apply store_preserves; [assumption|].
  rewrite dict_get_In_keys. symmetry. apply H.
Qed.

Lemma remove_preserves nm pb :
  well_formed pb -> well_formed (after (remove nm) pb).
Proof.
  destruct pb as [secs m o]. unfold well_formed, builder_wf, order_inv.
  intros (Hwf & Hnd & Hin). cbn in Hwf, Hnd, Hin.
  unfold after, remove.
  cbv [bind modify set_sections set_order_field sections meta order snd].
  split; [now apply dict_wf_pop | split].
  - now apply NoDup_filter.
  - intros n. rewrite dict_keys_pop by assumption.
    rewrite !filter_In, Hin. reflexivity.
Qed.

Lemma set_order_loop (ks : list pystr) (pb : PromptBuilder) :
  for_each
    (fun n =>
       ord <- gets order ;;
       if str_in n ord then ret tt
       else modify (set_order_field (fun o => o ++ [n])))
    ks pb
  = (Ok tt,
     mkPromptBuilder (sections pb) (meta pb) (append_missing ks (order pb))).
Proof.
  unfold for_each, append_missing. revert pb.
  induction ks as [|k ks IH]; intros [secs m o]; cbn [for_fold fold_left].
  - reflexivity.
  - rewrite run_bind, run_bind. cbn [gets order].
    destruct (str_in k o); cbn [ret modify set_order_field];
      rewrite IH; reflexivity.
Qed.

Lemma set_order_run (names : list pystr) (pb : PromptBuilder) :
  set_order names pb =
  (Ok tt,
   mkPromptBuilder (sections pb) (meta pb)
     (append_missing (dict_keys (sections pb))
        (filter (fun n => dict_mem n (sections pb)) names))).
Proof.
  unfold set_order. rewrite run_bind. cbn [gets].
  rewrite run_bind. cbn [modify]. rewrite set_order_loop.
  destruct pb; reflexivity.
Qed.

Lemma append_missing_spec (ks : list pystr) :
  forall o, NoDup o ->
    NoDup (append_missing ks o)
    /\ forall n, In n (append_missing ks o) <-> In n o \/ In n ks.
Proof.
  unfold append_missing.
  induction ks as [|k ks IH]; intros o Ho; cbn [fold_left].
  - split; [assumption | intros n; cbn; tauto].
  - destruct (str_in k o) eqn:E.
    + destruct (IH o Ho) as [Hn Hi]. split; [assumption|].
      intros n. rewrite Hi. cbn. apply str_in_In in E.
      intuition (subst; auto).
    + apply str_in_not_In in E.
      destruct (IH (o ++ [k]) (@NoDup_snoc k o Ho E)) as [Hn Hi].
      split; [assumption|].
      intros n. rewrite Hi, in_app_iff. cbn. tauto.
Qed.

(** [set_order] keeps the invariant when the names it is given that exist
    are pairwise distinct. *)
Lemma set_order_preserves names pb :
  well_formed pb ->
  NoDup (filter (fun n => dict_mem n (sections pb)) names) ->
  well_formed (after (set_order names) pb).
Proof.
  intros (Hwf & _ & _) Hnames. unfold after. rewrite set_order_run.
  cbn [snd]. split; [exact Hwf|].
  destruct (append_missing_spec (dict_keys (sections pb)) Hnames) as [Hn Hi].
  split; [exact Hn|]. cbn [order sections].
  intros n. rewrite Hi, filter_In, dict_get_In_keys. tauto.
Qed.

(** C4: on the builder holding the one section "a", which satisfies the
    order invariant, [set_order(["a", "a"])] leaves the order list
    ["a", "a"]: the name is in it twice and the invariant no longer
    holds. *)
Theorem set_order_repeats_break_invariant :
  let pb := mkPromptBuilder
              [(u "a", mkSection (u "a") (u "A") None None None 1)]
              [] [u "a"] in
  well_formed pb
  /\ outcome (set_order [u "a"; u "a"]) pb = Ok tt
  /\ order (after (set_order [u "a"; u "a"]) pb) = [u "a"; u "a"]
  /\ ~ order_inv (after (set_order [u "a"; u "a"]) pb).
Proof.
  intros pb. assert (Ho : order (after (set_order [u "a"; u "a"]) pb)
                          = [u "a"; u "a"]) by (vm_compute; reflexivity).
  split; [|split; [|split]].
  - split; [|split].
    + repeat constructor. cbn. tauto.
    + repeat constructor. cbn. tauto.
    + intros n. reflexivity.
  - reflexivity.
  - exact Ho.
  - intros [Hnd _]. rewrite Ho in Hnd. inversion Hnd as [|? ? Hin _].
    apply Hin. now left.
Qed.

(** ** Further properties of the builder *)

(** X1: [set], [append], [add_section] and [remove] keep a builder well
    formed: no key twice in the section mapping, and the order list holding
    exactly the keys of the mapping, each once. *)
Theorem operations_keep_well_formed (pb : PromptBuilder) (nm : pystr)
    (v : value) (ttl : option pystr) (mc : option Z) (ordered : bool)
    (inc : option (dict value)) (hs : Z) (sec : section)
    (replace copy : bool) :
  well_formed pb ->
  well_formed (after (set nm v ttl mc ordered inc hs) pb)
  /\ well_formed (after (append nm v ordered) pb)
  /\ well_formed (after (add_section sec replace copy) pb)
  /\ well_formed (after (remove nm) pb).
Proof.
  intros H. repeat split;
    first [ now apply set_preserves | now apply append_preserves
          | now apply add_section_preserves | now apply remove_preserves ].
Qed.

Lemma append_missing_filter (ks : list pystr) :
  NoDup ks ->
  forall o,
    append_missing ks o = o ++ filter (fun k => negb (str_in k o)) ks.
Proof.
  unfold append_missing. induction 1 as [|k ks Hk Hks IH]; intros o;
    cbn [fold_left filter].
  - now rewrite app_nil_r.
  - destruct (str_in k o) eqn:E; cbn [negb].
    + apply IH.
    + rewrite IH, <- app_assoc. cbn [app]. do 2 f_equal.
      apply filter_ext_in. intros n Hn. f_equal.
      unfold str_in. rewrite existsb_app. cbn [existsb].
      rewrite orb_false_r.
      destruct (pystr_eqb n k) eqn:En; [|now rewrite orb_false_r].
      apply pystr_eqb_eq in En. subst. contradiction.
Qed.

(** X2: [set_order(names)] returns without raising, leaves the sections and
    the metadata alone, and makes the order list the given names that exist,
    in the order given, followed by the keys of the mapping that were not
    named, in the order of the mapping; names that do not exist are
    dropped. *)
Theorem set_order_result (names : list pystr) (pb : PromptBuilder) :
  builder_wf pb ->
  let existing := filter (fun n => dict_mem n (sections pb)) names in
  set_order names pb =
  (Ok tt,
   mkPromptBuilder (sections pb) (meta pb)
     (existing
        ++ filter (fun k => negb (str_in k existing))
                  (dict_keys (sections pb)))).
Proof.
  intros Hwf existing. rewrite set_order_run.
  now rewrite append_missing_filter.
Qed.

(** The loop of [compile] on names that are all keys of the mapping, with no
    context: it runs to its end and leaves the builder alone. *)
Lemma render_no_context_returns (sec : section) :
  exists r, outcome (render None) sec = Ok r.
Proof.
  destruct sec as [n c mc ttl inc hs]. unfold outcome.
  cbv [render _header bind gets ret lift title header_size content max_chars].
  split_matches; eexists; reflexivity.
Qed.

Lemma header_no_context_returns (sec : section) :
  exists h, outcome (_header None) sec = Ok h.
Proof.
  destruct sec as [n c mc ttl inc hs]. unfold outcome.
  cbv [_header bind gets ret lift title header_size].
  split_matches; eexists; reflexivity.
Qed.

Lemma compile_section_no_context_returns include_empty parts sec :
  exists parts',
    outcome (compile_section None include_empty parts) sec = Ok parts'.
Proof.
  rewrite compile_section_outcome.
  destruct (skipped (include_if sec) None); [eauto|].
  destruct (render_no_context_returns sec) as (r & ->).
  destruct r as [|c r]; [|eauto].
  destruct include_empty; [|eauto].
  destruct (header_no_context_returns sec) as (h & ->). eauto.
Qed.

Lemma on_section_read_only_run {A : Type} (key : pystr) (m : M section A)
    (pb : PromptBuilder) :
  read_only m ->
  on_section key m pb =
  (match dict_get key (sections pb) with
   | Some sec => outcome m sec
   | None => Raise KeyError
   end, pb).
Proof.
  intros Hm. pose proof (read_only_on_section key Hm pb) as Hpb.
  unfold after in Hpb. unfold on_section in *.
  destruct (dict_get key (sections pb)) as [sec|]; [|reflexivity].
  unfold outcome. destruct (m sec) as [r sec']. cbn [fst snd] in *.
  now rewrite Hpb.
Qed.

Lemma compile_loop_no_context include_empty (pb : PromptBuilder)
    (ord : list pystr) :
  forall parts,
    if forallb (fun nm => dict_mem nm (sections pb)) ord
    then exists parts',
        for_fold
          (fun parts nm =>
             on_section nm (compile_section None include_empty parts))
          ord parts pb = (Ok parts', pb)
    else
      for_fold
        (fun parts nm =>
           on_section nm (compile_section None include_empty parts))
        ord parts pb = (Raise KeyError, pb).
Proof.
  induction ord as [|nm ord IH]; intros parts; cbn [forallb for_fold].
  - eexists; reflexivity.
  - rewrite run_bind.
    rewrite on_section_read_only_run by apply read_only_compile_section.
    unfold dict_mem at 1.
    destruct (dict_get nm (sections pb)) as [sec|]; cbn [andb].
    + destruct (compile_section_no_context_returns include_empty parts sec)
        as (parts1 & ->).
      apply IH.
    + destruct (forallb _ ord); reflexivity.
Qed.

(** X3: without a context [compile] returns a string when every name of the
    order list is a key of the section mapping, and raises [KeyError] when
    one is not; in both cases the builder is left as it was. *)
Theorem compile_no_context_returns_or_key_error (pb : PromptBuilder)
    (joiner : pystr) (include_empty : bool) :
  if forallb (fun nm => dict_mem nm (sections pb)) (order pb)
  then exists s, compile None joiner include_empty pb = (Ok s, pb)
  else compile None joiner include_empty pb = (Raise KeyError, pb).
Proof.
  pose proof (compile_loop_no_context include_empty pb (order pb) []) as H.
  unfold compile. rewrite run_bind. cbn [gets]. rewrite run_bind.
  destruct (forallb _ (order pb)).
  - destruct H as (parts & ->). destruct include_empty; eexists; reflexivity.
  - now rewrite H.
Qed.

(** X4: [set] on a name that is already a section replaces the section and
    keeps its place: the keys of the mapping and the order list are as
    before. *)
Theorem set_existing_keeps_position (pb : PromptBuilder) (nm : pystr)
    (v : value) (ttl : option pystr) (mc : option Z) (ordered : bool)
    (inc : option (dict value)) (hs : Z) :
  well_formed pb ->
  In nm (order pb) ->
  let pb' := after (set nm v ttl mc ordered inc hs) pb in
  order pb' = order pb
  /\ dict_keys (sections pb') = dict_keys (sections pb)
  /\ dict_get nm (sections pb')
     = Some (mkSection nm (_coerce_to_str ordered v) mc ttl inc hs).
Proof.
  intros (Hwf & Hnd & Hin) Hnm pb'. subst pb'. unfold after.
  rewrite set_run. cbn [snd order sections].
  assert (Hs : str_in nm (order pb) = true) by now apply str_in_In.
  assert (Hm : dict_mem nm (sections pb) = true)
    by now apply dict_get_In_keys, Hin.
  rewrite Hs, dict_keys_set, Hm, dict_get_set_same. auto.
Qed.

Lemma dict_pop_fresh (V : Type) (k : pystr) (v : V) (d : dict V) :
  ~ In k (dict_keys d) -> dict_pop k (d ++ [(k, v)]) = d.
Proof.
  induction d as [|[k' v'] d IH]; cbn; intros H.
  - now rewrite pystr_eqb_refl.
  - destruct (pystr_eqb k k') eqn:E.
    + apply pystr_eqb_eq in E. subst. tauto.
    + rewrite IH; tauto.
Qed.

Lemma filter_out_absent (nm : pystr) (o : list pystr) :
  ~ In nm o -> filter (fun n => negb (pystr_eqb n nm)) o = o.
Proof.
  intros H. apply forallb_filter_id, forallb_forall. intros n Hn.
  apply negb_true_iff, pystr_eqb_neq. congruence.
Qed.

(** X5: adding a section under a new name with [set] and taking it away
    with [remove] gives the builder back as it was. *)
Theorem remove_after_set_new (pb : PromptBuilder) (nm : pystr)
    (v : value) (ttl : option pystr) (mc : option Z) (ordered : bool)
    (inc : option (dict value)) (hs : Z) :
  ~ In nm (dict_keys (sections pb)) ->
  ~ In nm (order pb) ->
  after (remove nm) (after (set nm v ttl mc ordered inc hs) pb) = pb.
Proof.
  intros Hk Ho. unfold after at 2. rewrite set_run. cbn [snd].
  apply str_in_not_In in Ho as Hs. rewrite Hs.
  rewrite dict_set_fresh by assumption.
  unfold after, remove.
  cbv [bind modify set_sections set_order_field sections meta order snd].
  rewrite dict_pop_fresh by assumption.
  rewrite filter_app. cbn [filter]. rewrite pystr_eqb_refl. cbn [negb].
  rewrite app_nil_r, filter_out_absent by assumption.
  destruct pb; reflexivity.
Qed.

Lemma dict_get_pop (V : Type) (k nm : pystr) (d : dict V) :
  dict_wf d ->
  dict_get k (dict_pop nm d) = if pystr_eqb k nm then None else dict_get k d.
Proof.
  unfold dict_wf. induction d as [|[k' v'] d IH]; cbn; intros H.
  - now destruct (pystr_eqb k nm).
  - inversion H as [|? ? Hk Hd]; subst.
    destruct (pystr_eqb nm k') eqn:E.
    + apply pystr_eqb_eq in E. subst k'.
      destruct (pystr_eqb k nm) eqn:E2; [|reflexivity].
      apply pystr_eqb_eq in E2. subst k.
      now apply dict_get_None_keys.
    + cbn. destruct (pystr_eqb k k') eqn:E3.
      * apply pystr_eqb_eq in E3. subst k'.
        rewrite pystr_eqb_sym, E. reflexivity.
      * now apply IH.
Qed.

(** X6: [remove(name)] never raises; afterwards the name is neither a key
    of the mapping nor in the order list, every other section is where it
    was, and removing a name that is not there changes nothing. *)
Theorem remove_result (pb : PromptBuilder) (nm : pystr) :
  builder_wf pb ->
  let pb' := after (remove nm) pb in
  outcome (remove nm) pb = Ok tt
  /\ dict_get nm (sections pb') = None
  /\ ~ In nm (order pb')
  /\ (forall k, k <> nm ->
        dict_get k (sections pb') = dict_get k (sections pb)
        /\ (In k (order pb') <-> In k (order pb)))
  /\ (~ In nm (dict_keys (sections pb)) -> ~ In nm (order pb) -> pb' = pb).
Proof.
  intros Hwf pb'. subst pb'. destruct pb as [secs m o].
  unfold builder_wf in Hwf. cbn [sections] in Hwf.
  unfold after, outcome, remove.
  cbv [bind modify set_sections set_order_field sections meta order snd fst].
  split; [reflexivity | split; [|split; [|split]]].
  - rewrite dict_get_pop by assumption. now rewrite pystr_eqb_refl.
  - rewrite filter_In. intros [_ H]. now rewrite pystr_eqb_refl in H.
  - intros k Hk. split.
    + rewrite dict_get_pop by assumption.
      apply pystr_eqb_neq in Hk. now rewrite Hk.
    + rewrite filter_In. apply pystr_eqb_neq in Hk. rewrite Hk. cbn. tauto.
  - intros Hk Ho. rewrite filter_out_absent by assumption. f_equal.
    clear Hwf. induction secs as [|[k' v'] secs IH]; cbn; [reflexivity|].
    cbn in Hk. destruct (pystr_eqb nm k') eqn:E.
    + apply pystr_eqb_eq in E. subst. tauto.
    + rewrite IH; tauto.
Qed.

Lemma add_sections_cons (sec : section) (secs : list section)
    (replace copy : bool) (pb : PromptBuilder) :
  add_sections (sec :: secs) replace copy pb =
  match add_section sec replace copy pb with
  | (Ok _, pb') => add_sections secs replace copy pb'
  | (Raise e, pb') => (Raise e, pb')
  end.
Proof.
  unfold add_sections, for_each. cbn [for_fold]. rewrite run_bind.
  destruct (add_section sec replace copy pb) as [[[]|e] pb']; reflexivity.
Qed.

(** X7: [add_sections] with [replace=True] never raises and keeps the
    builder well formed; afterwards every section of the batch is stored
    under its name unless a later section of the batch has the same name. *)
Theorem add_sections_replace_returns (secs : list section) (copy : bool)
    (pb : PromptBuilder) :
  well_formed pb ->
  outcome (add_sections secs true copy) pb = Ok tt
  /\ well_formed (after (add_sections secs true copy) pb)
  /\ forall pre sec post,
       secs = pre ++ sec :: post ->
       (forall s, In s post -> name s <> name sec) ->
       dict_get (name sec) (sections (after (add_sections secs true copy) pb))
       = Some sec.
Proof.
  revert pb. induction secs as [|s secs IH]; intros pb Hwf.
  - split; [reflexivity | split; [assumption|]].
    intros [|? ?] ? ? H; discriminate.
  - unfold outcome, after in *. rewrite add_sections_cons, add_section_run.
    rewrite andb_false_r.
    set (pb1 := mkPromptBuilder _ _ _).
    assert (Hwf1 : well_formed pb1).
    { pose proof (add_section_preserves s true copy Hwf) as H.
      unfold after in H. rewrite add_section_run, andb_false_r in H.
      exact H. }
    destruct (IH pb1 Hwf1) as (Ho & Hw & Hg).
    split; [exact Ho | split; [exact Hw|]].
    intros [|p pre] sec post Heq Hlater; cbn [app] in Heq;
      injection Heq as -> ->.
    + clear Hg Ho Hw IH.
      assert (Hget : dict_get (name sec) (sections pb1) = Some sec)
        by (subst pb1; cbn [sections]; apply dict_get_set_same).
      clearbody pb1. clear Hwf1 Hwf pb.
      revert pb1 Hget. induction post as [|t post IHp]; intros pb1 Hget.
      * exact Hget.
      * rewrite add_sections_cons, add_section_run, andb_false_r.
        apply IHp.
        -- intros s0 Hs0. apply Hlater. now right.
        -- cbn [sections].
           assert (Hne : name t <> name sec) by (apply Hlater; now left).
           clear - Hget Hne. induction (sections pb1) as [|[k w] d IHd];
             cbn in *.
           ++ discriminate.
           ++ destruct (pystr_eqb (name sec) k) eqn:E1.
              ** apply pystr_eqb_eq in E1. subst k.
                 apply pystr_eqb_neq in Hne. rewrite Hne. cbn.
                 now rewrite pystr_eqb_refl.
              ** destruct (pystr_eqb (name t) k); cbn; rewrite E1; auto.
    + now apply (Hg pre sec post).
Qed.

(** X8: [add_sections] with [replace=False] is not all-or-nothing: when the
    first section of the batch is new and the second is already there, the
    call raises [ValueError] and the first section stays added, last in the
    order list. *)
Theorem add_sections_stops_at_duplicate (a b : section)
    (rest : list section) (copy : bool) (pb : PromptBuilder) :
  dict_mem (name a) (sections pb) = false ->
  dict_mem (name b) (sections pb) = true ->
  add_sections (a :: b :: rest) false copy pb =
  (Raise ValueError,
   mkPromptBuilder (dict_set (name a) a (sections pb)) (meta pb)
                   (order pb ++ [name a])).
Proof.
  intros Ha Hb.
  rewrite add_sections_cons, add_section_run, Ha. cbn [andb].
  rewrite add_sections_cons, add_section_run. cbn [sections].
  assert (Hb' : dict_mem (name b) (dict_set (name a) a (sections pb)) = true).
  { apply dict_get_In_keys. rewrite dict_keys_set, Ha.
    apply in_or_app. left. now apply dict_get_In_keys. }
  rewrite Hb'. reflexivity.
Qed.

(** X9: [append] on a name that is a section joins the new text to the
    stored content with a newline, trims the result and keeps the title,
    [max_chars], [include_if] and [header_size] of the section and the order
    list; on a new name it stores the text as [set] does, so that two
    appends on a new name give the two texts joined by a newline. *)
Theorem append_result (pb : PromptBuilder) (nm : pystr) (more : value)
    (ordered : bool) :
  (forall ex, dict_get nm (sections pb) = Some ex ->
     append nm more ordered pb =
     (Ok tt,
      mkPromptBuilder
        (dict_set nm
           (mkSection nm
              (strip (content ex ++ [NL] ++ _coerce_to_str ordered more))
              (max_chars ex) (title ex) (include_if ex) (header_size ex))
           (sections pb))
        (meta pb) (order pb)))
  /\ (dict_get nm (sections pb) = None ->
      append nm more ordered pb = set nm more None None ordered None 1 pb)
  /\ (dict_get nm (sections pb) = None ->
      forall more2 ordered2,
        dict_get nm
          (sections (after (append nm more2 ordered2)
                           (after (append nm more ordered) pb)))
        = Some (mkSection nm
                  (strip (_coerce_to_str ordered more ++ [NL]
                            ++ _coerce_to_str ordered2 more2))
                  None None None 1)).
Proof.
  assert (Hnew : dict_get nm (sections pb) = None ->
                 append nm more ordered pb
                 = set nm more None None ordered None 1 pb).
  { intros H. unfold append. rewrite run_bind. cbn [gets]. now rewrite H. }
  split; [|split; [exact Hnew|]].
  - intros ex H. unfold append. rewrite run_bind. cbn [gets]. rewrite H.
    destruct pb; reflexivity.
  - intros H more2 ordered2. unfold after at 2. rewrite (Hnew H), set_run.
    cbn [snd]. unfold after, append. rewrite run_bind.
    cbn [gets sections]. rewrite dict_get_set_same.
    cbn [modify snd set_sections sections content max_chars title include_if
         header_size].
    apply dict_get_set_same.
Qed.

(** X10: [make_section] followed by [add_section] with [replace=True] does
    to a well-formed builder what [set] with the same arguments does. *)
Theorem add_made_section_is_set (pb : PromptBuilder) (nm : pystr)
    (v : value) (ttl : option pystr) (mc : option Z) (ordered : bool)
    (inc : option (dict value)) (hs : Z) (copy : bool) :
  well_formed pb ->
  add_section (make_section nm v ttl mc ordered inc hs) true copy pb
  = set nm v ttl mc ordered inc hs pb.
Proof.
  intros (Hwf & Hnd & Hin). rewrite add_section_run, set_run.
  unfold make_section. cbn [name]. rewrite andb_false_r.
  do 2 f_equal.
  destruct (dict_mem nm (sections pb)) eqn:Em, (str_in nm (order pb)) eqn:Es;
    try reflexivity; exfalso.
  - apply dict_get_In_keys, Hin, str_in_In in Em. congruence.
  - apply str_in_In, Hin, dict_get_In_keys in Es. congruence.
Qed.

(** ** Further properties of sections *)

Lemma lstrip_length (s : pystr) : length (lstrip s) <= length s.
Proof.
  induction s as [|c s IH]; cbn; [lia|]. destruct (isspace c); cbn; lia.
Qed.

Lemma rstrip_length (s : pystr) : length (rstrip s) <= length s.
Proof.
  unfold rstrip. rewrite length_rev.
  pose proof (lstrip_length (rev s)) as H. now rewrite length_rev in H.
Qed.

(** X11: with a positive [max_chars] of [n], the content [render] works
    with has at most [n + 1] characters, and it is the trimmed content
    itself when that has at most [n]; with no title and no context this
    bounds what [render] returns. *)
Theorem truncated_length_bound (sec : section) (n : Z) :
  max_chars sec = Some n ->
  (0 < n)%Z ->
  length (truncated (content sec) (max_chars sec)) <= Z.to_nat n + 1
  /\ ((Z.of_nat (length (strip (content sec))) <= n)%Z ->
      truncated (content sec) (max_chars sec) = strip (content sec))
  /\ (title sec = None ->
      exists r, outcome (render None) sec = Ok r
                /\ length r <= Z.to_nat n + 1).
Proof.
  intros Hmc Hn. rewrite Hmc.
  assert (Hlen : length (truncated (content sec) (Some n)) <= Z.to_nat n + 1).
  { unfold truncated, slice_to.
    destruct (n =? 0)%Z eqn:E0; [apply Z.eqb_eq in E0; lia|]. cbn [negb andb].
    destruct (Z.of_nat (length (strip (content sec))) >? n)%Z eqn:E1.
    - destruct (n <? 0)%Z eqn:E2; [apply Z.ltb_lt in E2; lia|].
      rewrite length_app. cbn [length].
      pose proof (rstrip_length (firstn (Z.to_nat n) (strip (content sec)))).
      rewrite length_firstn in H. lia.
    - rewrite Z.gtb_ltb in E1. apply Z.ltb_ge in E1. lia. }
  split; [exact Hlen | split].
  - intros Hle. unfold truncated.
    destruct (Z.of_nat (length (strip (content sec))) >? n)%Z eqn:E1;
      [|now rewrite andb_false_r].
    rewrite Z.gtb_ltb in E1. apply Z.ltb_lt in E1. lia.
  - intros Ht. exists (truncated (content sec) (Some n)). split; [|exact Hlen].
    destruct sec as [nm c mc ttl inc hs]. cbn [title max_chars content] in *.
    subst. reflexivity.
Qed.

(** X12: a section whose content is empty once trimmed, with a title and a
    [max_chars] that is absent or not negative, renders to the empty string:
    alone in a builder it leaves [compile] with nothing, unless
    [include_empty] is set, in which case [compile] returns its header. *)
Theorem header_only_section (sec : section) (nm : pystr) (m : dict value)
    (joiner : pystr) (h : pystr) :
  strip (content sec) = [] ->
  (forall n, max_chars sec = Some n -> (0 <= n)%Z) ->
  include_if sec = None ->
  outcome (_header None) sec = Ok (Some h) ->
  outcome (render None) sec = Ok []
  /\ outcome (compile None joiner false) (mkPromptBuilder [(nm, sec)] m [nm])
     = Ok []
  /\ outcome (compile None joiner true) (mkPromptBuilder [(nm, sec)] m [nm])
     = Ok h.
Proof.
  intros Hc Hmc Hinc Hh.
  assert (Ht : truncated (content sec) (max_chars sec) = []).
  { unfold truncated. rewrite Hc. destruct (max_chars sec) as [n|] eqn:E;
      [|reflexivity].
    specialize (Hmc n eq_refl). cbn [length]. change (Z.of_nat 0) with 0%Z.
    destruct (0 >? n)%Z eqn:E1; [|now rewrite andb_false_r].
    rewrite Z.gtb_ltb in E1. apply Z.ltb_lt in E1. lia. }
  assert (Hr : outcome (render None) sec = Ok []).
  { clear Hc Hmc Hinc. destruct sec as [n0 c mc ttl inc hs].
    cbn [content max_chars] in Ht. unfold outcome in *.
    cbv [render bind gets ret content max_chars]. rewrite Ht.
    destruct (_header None (mkSection n0 c mc ttl inc hs)) as [r s'].
    cbn [fst] in Hh. subst r. destruct h; reflexivity. }
  split; [exact Hr | split];
    rewrite compile_single_outcome, compile_section_outcome, Hinc, Hr;
    cbn [skipped]; [reflexivity|].
  rewrite Hh. reflexivity.
Qed.

(** ** Further properties of the utilities *)

Lemma split_on_prefix (sep : char) (p rest : pystr) :
  ~ In sep p -> split_on sep (p ++ sep :: rest) = p :: split_on sep rest.
Proof.
  induction p as [|c p IH]; intros H; cbn [app split_on].
  - unfold char_eqb. now rewrite N.eqb_refl.
  - destruct (char_eqb c sep) eqn:E.
    + unfold char_eqb in E. apply N.eqb_eq in E. subst.
      exfalso. apply H. now left.
    + rewrite IH; [reflexivity|]. intros Hin. apply H. now right.
Qed.

Lemma split_on_no_sep (sep : char) (p : pystr) :
  ~ In sep p -> split_on sep p = [p].
Proof.
  induction p as [|c p IH]; intros H; cbn [split_on]; [reflexivity|].
  destruct (char_eqb c sep) eqn:E.
  - unfold char_eqb in E. apply N.eqb_eq in E. subst.
    exfalso. apply H. now left.
  - rewrite IH; [reflexivity|]. intros Hin. apply H. now right.
Qed.

(** X13: [_lookup] walks the path one dotted part at a time.  A path with
    no dot is a plain key lookup, [None] when the key is missing; a path
    [p.rest] looks [rest] up in the mapping stored under [p], and gives
    [None] when [p] is missing or holds something that is not a mapping. *)
Theorem lookup_by_parts (p rest : pystr) (data : dict value) :
  ~ In 46%N p ->
  _lookup p data
    = match dict_get p data with Some v => v | None => VNone end
  /\ _lookup (p ++ 46%N :: rest) data
    = match dict_get p data with
      | Some (VDict d) => _lookup rest d
      | _ => VNone
      end.
Proof.
  intros H. unfold _lookup. rewrite split_on_no_sep, split_on_prefix by exact H.
  cbn [_lookup_parts]. split.
  - destruct (dict_get p data); reflexivity.
  - destruct (dict_get p data) as [v|]; [|reflexivity].
    destruct (split_on 46%N rest) as [|q qs] eqn:E.
    + destruct rest; cbn in E; [discriminate|].
      destruct (char_eqb c 46%N); [discriminate|].
      destruct (split_on 46%N rest); discriminate.
    + destruct v; reflexivity.
Qed.

(** X14: [_conditions_match] passes an empty mapping whatever the context,
    fails a non-empty one when there is no context, and with a context takes
    the conjunction over the pairs: a mapping made of two parts passes when
    both parts pass. *)
Theorem conditions_match_conjunction (a b : dict value)
    (ctx : dict value) (kv : pystr * value) :
  (forall context, _conditions_match [] context = true)
  /\ _conditions_match (kv :: a) None = false
  /\ _conditions_match (a ++ b) (Some ctx)
     = _conditions_match a (Some ctx) && _conditions_match b (Some ctx)
  /\ _conditions_match [kv] (Some ctx)
     = _condition_holds (snd kv) (_lookup (fst kv) ctx).
Proof.
  split; [reflexivity | split; [reflexivity | split]].
  - assert (H : forall c, _conditions_match c (Some ctx)
                          = forallb (fun kv => _condition_holds (snd kv)
                                       (_lookup (fst kv) ctx)) c)
      by (intros [|? ?]; reflexivity).
    rewrite !H. apply forallb_app.
  - cbn. apply andb_true_r.
Qed.

(** ** Further properties of the macro engine *)

Lemma m_lit_startswith (p s : pystr) :
  m_lit p s = None <-> startswith p s = false.
Proof.
  revert s. induction p as [|x p IH]; intros s; cbn.
  - split; discriminate.
  - destruct s as [|y s]; [tauto|].
    destruct (char_eqb x y); cbn; [apply IH | tauto].
Qed.

Lemma m_lit_app (p s : pystr) : m_lit p (p ++ s) = Some s.
Proof.
  induction p as [|x p IH]; cbn; [reflexivity|].
  unfold char_eqb. now rewrite N.eqb_refl.
Qed.

Lemma firstn_app_exact (g rest : pystr) :
  firstn (length (g ++ rest) - length rest) (g ++ rest) = g.
Proof.
  rewrite length_app, Nat.add_sub, firstn_app, Nat.sub_diag, firstn_all.
  cbn. apply app_nil_r.
Qed.

Section SubFacts.
Variables (St : Type) (c : char) (p : pystr) (r2 : regex).
Variable f : St -> Match -> result (pystr * St).
Let r := Cat (Lit (c :: p)) r2.

(** No match where the first character of the pattern is not at hand. *)
Lemma no_match_other_head (x : char) (s : pystr) :
  char_eqb c x = false -> re_match_at r (x :: s) = None.
Proof.
  intros H. unfold re_match_at, r. cbn [m_re m_lit]. now rewrite H.
Qed.

Lemma sub_loop_no_match (x : char) (s : pystr) (st : St) :
  re_match_at r (x :: s) = None ->
  sub_loop r f (x :: s) 0 st =
  let* (t, st1) := sub_loop r f s 0 st in Ok (x :: t, st1).
Proof. intros H. cbn [sub_loop]. now rewrite H. Qed.

(** Text without the first character of the pattern is copied. *)
Lemma sub_loop_copy (pre s : pystr) (st : St) :
  ~ In c pre ->
  sub_loop r f (pre ++ s) 0 st =
  let* (t, st1) := sub_loop r f s 0 st in Ok (pre ++ t, st1).
Proof.
  induction pre as [|x pre IH]; intros H; cbn [app].
  - destruct (sub_loop r f s 0 st) as [[t st1]|e]; reflexivity.
  - rewrite sub_loop_no_match.
    + rewrite IH by (cbn in H; tauto).
      destruct (sub_loop r f s 0 st) as [[t st1]|e]; reflexivity.
    + apply no_match_other_head. unfold char_eqb. apply N.eqb_neq.
      cbn in H. intros E. apply H. left. now symmetry.
Qed.

Lemma sub_loop_copy_all (pre : pystr) (st : St) :
  ~ In c pre -> sub_loop r f pre 0 st = Ok (pre, st).
Proof.
  intros H. rewrite <- (app_nil_r pre) at 1. rewrite sub_loop_copy by exact H.
  cbn. now rewrite app_nil_r.
Qed.

(** At a match, the callback's text is written and the scan goes on after
    the match. *)
Lemma sub_loop_at_match (g rest : pystr) (m : Match) (st : St) :
  g <> [] ->
  re_match_at r (g ++ rest) = Some (m, rest) ->
  group0 m = g ->
  sub_loop r f (g ++ rest) 0 st =
  let* (out, st1) := f st m in
  let* (t, st2) := sub_loop r f rest 0 st1 in
  Ok (out ++ t, st2).
Proof.
  intros Hg Hm H0. destruct g as [|x g]; [contradiction|].
  cbn [app] in *. cbn [sub_loop]. rewrite Hm, H0.
  destruct (f st m) as [[out st1]|e]; cbn [rbind]; [|reflexivity].
  replace (length (x :: g) - 1) with (length g) by (cbn [length]; lia).
  rewrite sub_loop_skip by (rewrite length_app; lia).
  now rewrite skipn_app, skipn_all, Nat.sub_diag.
Qed.
End SubFacts.

(** The lazy star stops at the first place where what follows matches. *)
Lemma lazy_star_first (A : Type) (cls : char -> bool)
    (k : pystr -> option A) (a b : pystr) (res : A) :
  forallb cls a = true ->
  (forall x y, a = x ++ y -> y <> [] -> k (y ++ b) = None) ->
  k b = Some res ->
  m_star false cls (a ++ b) k = Some res.
Proof.
  revert k. induction a as [|ch a IH]; intros k Hcls Hnone Hb; cbn [app].
  - destruct b as [|x b]; cbn [m_star]; [exact Hb|].
    destruct (cls x); now rewrite Hb.
  - cbn [forallb] in Hcls. apply andb_true_iff in Hcls as [Hc Ha].
    cbn [m_star]. rewrite Hc.
    assert (H0 : k (ch :: a ++ b) = None)
      by (apply (Hnone [] (ch :: a)); [reflexivity | discriminate]).
    rewrite H0.
    apply IH; [exact Ha | | exact Hb].
    intros x y -> Hy. apply (Hnone (ch :: x) y); [reflexivity | exact Hy].
Qed.

(** The greedy star takes every character of the class when what follows
    then matches. *)
Lemma greedy_star_all (A : Type) (cls : char -> bool)
    (k : pystr -> option A) (ws z : pystr) (res : A) :
  forallb cls ws = true ->
  match z with [] => True | x :: _ => cls x = false end ->
  k z = Some res ->
  m_star true cls (ws ++ z) k = Some res.
Proof.
  intros Hws Hz Hk. induction ws as [|ch ws IH]; cbn [app].
  - destruct z as [|x z]; cbn [m_star]; [exact Hk|]. now rewrite Hz.
  - cbn [forallb] in Hws. apply andb_true_iff in Hws as [Hc Hw].
    cbn [m_star]. rewrite Hc, (IH Hw). reflexivity.
Qed.

(** Only the first three characters decide whether a string starts with
    three given ones. *)
Lemma startswith3_app (a b c : char) (y t z : pystr) :
  y <> [] -> length t = 2 ->
  startswith [a; b; c] (y ++ t ++ z) = startswith [a; b; c] (y ++ t).
Proof.
  intros Hy Ht. destruct t as [|t1 [|t2 [|? ?]]]; try discriminate.
  destruct y as [|y1 [|y2 [|y3 y]]]; [contradiction| | |]; cbn [app startswith];
    rewrite ?andb_true_r; reflexivity.
Qed.

Lemma contains_suffix (p x y : pystr) :
  contains p (x ++ y) = false -> contains p y = false.
Proof.
  induction x as [|c x IH]; cbn [app]; [auto|].
  cbn [contains]. intros H. apply orb_false_iff in H as [_ H]. auto.
Qed.

Lemma contains_head (p s : pystr) :
  contains p s = false -> startswith p s = false.
Proof.
  destruct s; cbn [contains]; intros H; now apply orb_false_iff in H as [H _].
Qed.

(** Where [_TRIPLE] matches: from the opening delimiter to the first
    closing one. *)
Lemma triple_match_at (inner post : pystr) :
  contains [RBRACE; RBRACE; RBRACE] (inner ++ [RBRACE; RBRACE]) = false ->
  re_match_at _TRIPLE
    ([LBRACE; LBRACE; LBRACE] ++ inner ++ [RBRACE; RBRACE; RBRACE] ++ post)
  = Some ({| group0 := [LBRACE; LBRACE; LBRACE] ++ inner
                         ++ [RBRACE; RBRACE; RBRACE];
             group1 := inner |}, post).
Proof.
  intros H. unfold re_match_at, _TRIPLE.
  set (s := [LBRACE; LBRACE; LBRACE] ++ inner ++ [RBRACE; RBRACE; RBRACE]
              ++ post).
  cbn [m_re]. unfold s at 1. rewrite m_lit_app. cbn [m_count].
  set (s1 := inner ++ [RBRACE; RBRACE; RBRACE] ++ post).
  unfold s1 at 1.
  erewrite lazy_star_first; [reflexivity | | | ].
  - apply forallb_forall. reflexivity.
  - intros x y -> Hy.
    assert (Hn : m_lit [RBRACE; RBRACE; RBRACE]
                   (y ++ [RBRACE; RBRACE; RBRACE] ++ post) = None).
    { apply m_lit_startswith.
      change ([RBRACE; RBRACE; RBRACE] ++ post)
        with ([RBRACE; RBRACE] ++ (RBRACE :: post)).
      rewrite startswith3_app by (auto; reflexivity).
      rewrite <- app_assoc in H. apply contains_suffix in H.
      now apply contains_head. }
    now rewrite Hn.
  - rewrite m_lit_app. do 2 f_equal. f_equal.
    + replace s with (([LBRACE; LBRACE; LBRACE] ++ inner
                         ++ [RBRACE; RBRACE; RBRACE]) ++ post)
        by (unfold s; now rewrite <- !app_assoc).
      apply firstn_app_exact.
    + unfold s1. apply firstn_app_exact.
Qed.

Lemma isdigit_zero : isdigit 48%N = true.
Proof. reflexivity. Qed.

Lemma isdigit_sentinel : isdigit SENTINEL = false.
Proof. reflexivity. Qed.

(** Where [_PROT] matches the placeholder of the first escaped block. *)
Lemma prot_match_at (post : pystr) :
  re_match_at _PROT ([SENTINEL; 48%N; SENTINEL] ++ post)
  = Some ({| group0 := [SENTINEL; 48%N; SENTINEL]; group1 := [48%N] |}, post).
Proof.
  unfold re_match_at, _PROT.
  set (s := [SENTINEL; 48%N; SENTINEL] ++ post).
  cbn [m_re]. unfold s at 1.
  change ([SENTINEL; 48%N; SENTINEL] ++ post)
    with ([SENTINEL] ++ (48%N :: SENTINEL :: post)).
  rewrite m_lit_app. cbn [m_count]. rewrite isdigit_zero.
  cbn [m_star]. rewrite isdigit_sentinel.
  change (SENTINEL :: post) with ([SENTINEL] ++ post) at 1.
  rewrite m_lit_app. do 2 f_equal. f_equal.
  - apply (firstn_app_exact [SENTINEL; 48%N; SENTINEL] post).
  - cbn [length]. replace (S (S (length post)) - S (length post)) with 1 by lia.
    reflexivity.
Qed.

Lemma not_in_app (x : char) (a b : pystr) :
  ~ In x a -> ~ In x b -> ~ In x (a ++ b).
Proof. rewrite in_app_iff. tauto. Qed.

(** X15: text that holds neither an opening brace nor the sentinel U+E000
    comes back from [_apply_macros] as it is, whatever the context. *)
Theorem plain_text_unchanged (text : pystr) (context : dict value) :
  ~ In LBRACE text ->
  ~ In SENTINEL text ->
  _apply_macros text context = Ok text.
Proof.
  intros Hb Hs. unfold _apply_macros. destruct text as [|c text]; [reflexivity|].
  unfold re_sub, _TRIPLE, _DOUBLE, _PROT.
  rewrite sub_loop_copy_all by exact Hb. cbn [rbind].
  rewrite sub_loop_copy_all by exact Hb. cbn [rbind].
  rewrite sub_loop_copy_all by exact Hs. reflexivity.
Qed.

(** X16: an escaped block [{{{inner}}}] between two stretches of plain text
    is replaced by [inner], verbatim and without interpolation, whatever
    [inner] holds and whatever the context, as long as [inner] neither
    holds the closing delimiter nor runs into it. *)
Theorem escaped_block_verbatim (pre inner post : pystr)
    (context : dict value) :
  ~ In LBRACE pre -> ~ In SENTINEL pre ->
  ~ In LBRACE post -> ~ In SENTINEL post ->
  contains (u "}}}") (inner ++ u "}}") = false ->
  _apply_macros (pre ++ u "{{{" ++ inner ++ u "}}}" ++ post) context
  = Ok (pre ++ inner ++ post).
Proof.
  intros Hb1 Hs1 Hb2 Hs2 Hin.
  change (u "}}}") with [RBRACE; RBRACE; RBRACE] in *.
  change (u "}}") with [RBRACE; RBRACE] in *.
  change (u "{{{") with [LBRACE; LBRACE; LBRACE].
  unfold _apply_macros.
  destruct (pre ++ [LBRACE; LBRACE; LBRACE] ++ inner
              ++ [RBRACE; RBRACE; RBRACE] ++ post) as [|c0 t0] eqn:Et.
  { destruct pre; discriminate. }
  rewrite <- Et. clear Et c0 t0.
  unfold re_sub.
  (* the escaped block is put aside *)
  unfold _TRIPLE at 1. rewrite sub_loop_copy by exact Hb1.
  change ([LBRACE; LBRACE; LBRACE] ++ inner ++ [RBRACE; RBRACE; RBRACE] ++ post)
    with (([LBRACE; LBRACE; LBRACE] ++ inner) ++ [RBRACE; RBRACE; RBRACE]
            ++ post).
  rewrite app_assoc.
  rewrite (@sub_loop_at_match _ LBRACE [LBRACE; LBRACE] _ protect_store
             (([LBRACE; LBRACE; LBRACE] ++ inner) ++ [RBRACE; RBRACE; RBRACE])
             post
             {| group0 := [LBRACE; LBRACE; LBRACE] ++ inner
                            ++ [RBRACE; RBRACE; RBRACE];
                group1 := inner |} []);
    [ | discriminate
      | rewrite <- app_assoc; apply (triple_match_at inner post Hin)
      | now rewrite <- app_assoc ].
  cbn [protect_store rbind group1 app].
  rewrite sub_loop_copy_all by exact Hb2. cbn [rbind].
  change (str_of_nat (length [inner] - 1)) with [48%N].
  (* no double delimiter is left *)
  unfold _DOUBLE. rewrite sub_loop_copy_all.
  2:{ apply not_in_app; [exact Hb1|]. cbn [app].
      intros [H|[H|[H|H]]]; try discriminate. contradiction. }
  cbn [rbind].
  (* the placeholder is replaced by the block *)
  unfold _PROT. rewrite sub_loop_copy by exact Hs1.
  rewrite (@sub_loop_at_match _ SENTINEL [] _ (unprotect [inner])
             [SENTINEL; 48%N; SENTINEL] post
             {| group0 := [SENTINEL; 48%N; SENTINEL]; group1 := [48%N] |} tt);
    [ | discriminate | apply prot_match_at | reflexivity ].
  assert (Hu : unprotect [inner] tt
                 {| group0 := [SENTINEL; 48%N; SENTINEL]; group1 := [48%N] |}
               = Ok (inner, tt)) by reflexivity.
  rewrite Hu. cbn [rbind].
  rewrite sub_loop_copy_all by exact Hs2. reflexivity.
Qed.

(** A character of a macro key written without inner blanks: neither
    whitespace nor a brace. *)
Lemma key_char_facts (key : pystr) :
  forallb (fun c => negb (isspace c) && not_brace c) key = true ->
  forallb not_brace key = true
  /\ forallb (fun c => negb (isspace c)) key = true
  /\ ~ In LBRACE key /\ ~ In RBRACE key.
Proof.
  induction key as [|c key IH]; cbn [forallb]; [cbn; tauto|].
  rewrite !andb_true_iff. intros [[Hs Hb] Hk].
  destruct (IH Hk) as (H1 & H2 & H3 & H4).
  rewrite Hs, Hb, H1, H2. repeat split; try reflexivity.
  - cbn. intros [E|E]; [subst c; discriminate | contradiction].
  - cbn. intros [E|E]; [subst c; discriminate | contradiction].
Qed.

Lemma blanks_hold_no (x : char) (ws : pystr) :
  isspace x = false -> forallb isspace ws = true -> ~ In x ws.
Proof.
  intros Hx. induction ws as [|c ws IH]; cbn [forallb]; [cbn; tauto|].
  rewrite andb_true_iff. intros [Hc Hw] [E|E]; [subst; congruence | now apply IH].
Qed.

Lemma lstrip_no_blank_head (s : pystr) :
  match s with [] => True | c :: _ => isspace c = false end -> lstrip s = s.
Proof. destruct s as [|c s]; cbn; [reflexivity|]. now intros ->. Qed.

Lemma strip_no_blanks (key : pystr) :
  forallb (fun c => negb (isspace c)) key = true -> strip key = key.
Proof.
  intros H. unfold strip, rstrip.
  assert (Hall : forall c, In c key -> isspace c = false).
  { intros c Hc. rewrite forallb_forall in H. apply negb_true_iff. auto. }
  rewrite (lstrip_no_blank_head key).
  - rewrite lstrip_no_blank_head; [apply rev_involutive|].
    destruct (rev key) as [|c r] eqn:E; [exact I|].
    apply Hall, in_rev. rewrite E. now left.
  - destruct key as [|c k]; [exact I|]. apply Hall. now left.
Qed.

(** Where [_DOUBLE] matches: a key without blanks or braces, with blanks
    around it, between the delimiters. *)
Lemma double_match_at (ws1 key ws2 post : pystr) :
  key <> [] ->
  forallb (fun c => negb (isspace c) && not_brace c) key = true ->
  forallb isspace ws1 = true ->
  forallb isspace ws2 = true ->
  re_match_at _DOUBLE
    (([LBRACE; LBRACE] ++ ws1 ++ key ++ ws2 ++ [RBRACE; RBRACE]) ++ post)
  = Some ({| group0 := [LBRACE; LBRACE] ++ ws1 ++ key ++ ws2
                         ++ [RBRACE; RBRACE];
             group1 := key |}, post).
Proof.
  intros Hne Hkey Hw1 Hw2.
  destruct (key_char_facts key Hkey) as (Hnb & Hns & HL & HR).
  destruct key as [|c0 key']; [contradiction|].
  cbn [forallb] in Hnb, Hns. apply andb_true_iff in Hnb as [Hb0 Hnb].
  apply andb_true_iff in Hns as [Hs0 Hns]. apply negb_true_iff in Hs0.
  unfold re_match_at, _DOUBLE.
  set (s := ([LBRACE; LBRACE] ++ ws1 ++ (c0 :: key') ++ ws2
               ++ [RBRACE; RBRACE]) ++ post).
  assert (Es : s = [LBRACE; LBRACE]
                     ++ ws1 ++ (c0 :: key') ++ ws2 ++ [RBRACE; RBRACE] ++ post)
    by (unfold s; now rewrite <- !app_assoc).
  cbn [m_re]. rewrite Es at 1. rewrite m_lit_app. cbn [m_count].
  set (z := (c0 :: key') ++ ws2 ++ [RBRACE; RBRACE] ++ post).
  erewrite (@greedy_star_all _ isspace _ ws1 z); [reflexivity | exact Hw1 | | ].
  { unfold z. cbn [app]. exact Hs0. }
  unfold z at 1. cbn [app m_count]. rewrite Hb0.
  set (b := ws2 ++ [RBRACE; RBRACE] ++ post).
  erewrite (@lazy_star_first _ not_brace _ key' b); [reflexivity | exact Hnb | | ].
  - intros x y -> Hy. destruct y as [|c y]; [contradiction|].
    cbn [app m_star].
    assert (Hc : isspace c = false /\ char_eqb RBRACE c = false).
    { split.
      - rewrite forallb_forall in Hns. apply negb_true_iff, Hns.
        apply in_or_app. right. now left.
      - unfold char_eqb. apply N.eqb_neq. intros E. apply HR. right.
        apply in_or_app. right. left. now symmetry. }
    destruct Hc as [Hc1 Hc2]. rewrite Hc1. cbn [m_lit]. now rewrite Hc2.
  - unfold b at 1.
    erewrite (@greedy_star_all _ isspace _ ws2 ([RBRACE; RBRACE] ++ post));
      [reflexivity | exact Hw2 | reflexivity | ].
    rewrite m_lit_app. do 2 f_equal. f_equal.
    + unfold s. apply firstn_app_exact.
    + unfold z. change ((c0 :: key') ++ ws2 ++ [RBRACE; RBRACE] ++ post)
        with ((c0 :: key') ++ b).
      apply firstn_app_exact.
Qed.

Lemma apply_macros_unfold (text : pystr) (context : dict value) :
  text <> [] ->
  _apply_macros text context =
  let* (text1, protected) := re_sub _TRIPLE protect_store text [] in
  let* (text2, _) := re_sub _DOUBLE (repl context) text1 tt in
  let* (text3, _) := re_sub _PROT (unprotect protected) text2 tt in
  Ok text3.
Proof. destruct text; [contradiction | reflexivity]. Qed.

(** X17: a macro [{{ key }}] between two stretches of plain text, its key
    written without blanks or braces and with any blanks around it: when the
    dotted path resolves to a value other than [None], the span is replaced
    by [str] of the value (which must not hold the sentinel); when it does
    not resolve, the text comes back unchanged. *)
Theorem macro_span_substituted (pre ws1 key ws2 post : pystr)
    (context : dict value) :
  ~ In LBRACE pre -> ~ In SENTINEL pre ->
  ~ In LBRACE post -> ~ In SENTINEL post ->
  key <> [] ->
  forallb (fun c => negb (isspace c) && not_brace c) key = true ->
  ~ In SENTINEL key ->
  forallb isspace ws1 = true ->
  forallb isspace ws2 = true ->
  let text := pre ++ u "{{" ++ ws1 ++ key ++ ws2 ++ u "}}" ++ post in
  (_lookup key context = VNone -> _apply_macros text context = Ok text)
  /\ (_lookup key context <> VNone ->
      ~ In SENTINEL (py_str (_lookup key context)) ->
      _apply_macros text context
      = Ok (pre ++ py_str (_lookup key context) ++ post)).
Proof.
  intros Hb1 Hs1 Hb2 Hs2 Hne Hkey Hsk Hw1 Hw2 text.
  change (u "{{") with [LBRACE; LBRACE] in text.
  change (u "}}") with [RBRACE; RBRACE] in text.
  destruct (key_char_facts key Hkey) as (Hnb & Hns & HL & HR).
  set (rest1 := ws1 ++ key ++ ws2 ++ [RBRACE; RBRACE] ++ post).
  assert (HLrest : ~ In LBRACE rest1).
  { unfold rest1. repeat apply not_in_app; auto.
    - now apply blanks_hold_no.
    - now apply blanks_hold_no.
    - cbn. intros [H|[H|[]]]; discriminate. }
  assert (Hspan : [LBRACE; LBRACE] ++ rest1
                  = ([LBRACE; LBRACE] ++ ws1 ++ key ++ ws2 ++ [RBRACE; RBRACE])
                      ++ post)
    by (unfold rest1; now rewrite <- !app_assoc).
  (* the first pass finds no escaped block *)
  assert (P1 : re_sub _TRIPLE protect_store text [] = Ok (text, [])).
  { unfold re_sub, _TRIPLE, text. fold rest1.
    rewrite sub_loop_copy by exact Hb1.
    destruct rest1 as [|x r1] eqn:Er.
    { unfold rest1 in Er. destruct ws1, key; try discriminate. contradiction. }
    assert (Hx : char_eqb LBRACE x = false).
    { unfold char_eqb. apply N.eqb_neq. intros E. apply HLrest. now left. }
    cbn [app].
    rewrite sub_loop_no_match
      by (unfold re_match_at; cbn [m_re m_lit]; now rewrite Hx).
    rewrite sub_loop_no_match
      by (unfold re_match_at; cbn [m_re m_lit]; now rewrite Hx).
    rewrite sub_loop_copy_all by exact HLrest. reflexivity. }
  (* the second pass meets the span *)
  assert (P2 : forall out,
             repl context tt
               {| group0 := [LBRACE; LBRACE] ++ ws1 ++ key ++ ws2
                              ++ [RBRACE; RBRACE];
                  group1 := key |} = Ok (out, tt) ->
             re_sub _DOUBLE (repl context) text tt
             = Ok (pre ++ out ++ post, tt)).
  { intros out Hout. unfold re_sub, _DOUBLE, text. fold rest1.
    rewrite sub_loop_copy by exact Hb1. rewrite Hspan.
    rewrite (@sub_loop_at_match _ LBRACE [LBRACE] _ (repl context)
               ([LBRACE; LBRACE] ++ ws1 ++ key ++ ws2 ++ [RBRACE; RBRACE])
               post
               {| group0 := [LBRACE; LBRACE] ++ ws1 ++ key ++ ws2
                              ++ [RBRACE; RBRACE];
                  group1 := key |} tt);
      [ | discriminate | now apply double_match_at | reflexivity ].
    rewrite Hout. cbn [rbind].
    rewrite sub_loop_copy_all by exact Hb2. reflexivity. }
  assert (Hnil : text <> []) by (unfold text; destruct pre; discriminate).
  assert (Hrepl : repl context tt
                    {| group0 := [LBRACE; LBRACE] ++ ws1 ++ key ++ ws2
                                   ++ [RBRACE; RBRACE];
                       group1 := key |}
                  = match _lookup key context with
                    | VNone => Ok ([LBRACE; LBRACE] ++ ws1 ++ key ++ ws2
                                     ++ [RBRACE; RBRACE], tt)
                    | v => Ok (py_str v, tt)
                    end).
  { unfold repl. cbn [group1 group0]. now rewrite strip_no_blanks. }
  assert (Htext : pre ++ ([LBRACE; LBRACE] ++ ws1 ++ key ++ ws2
                            ++ [RBRACE; RBRACE]) ++ post = text)
    by (unfold text; fold rest1; now rewrite Hspan).
  assert (HStext : ~ In SENTINEL text).
  { unfold text. repeat apply not_in_app; auto.
    - cbn. intros [H|[H|[]]]; discriminate.
    - now apply blanks_hold_no.
    - now apply blanks_hold_no.
    - cbn. intros [H|[H|[]]]; discriminate. }
  split.
  - intros Hnone. rewrite Hnone in Hrepl.
    rewrite apply_macros_unfold by exact Hnil.
    rewrite P1. cbn [rbind]. rewrite (P2 _ Hrepl). cbn [rbind].
    rewrite Htext. unfold re_sub, _PROT.
    now rewrite sub_loop_copy_all by exact HStext.
  - intros Hsome Hsv.
    assert (Hr : repl context tt
                   {| group0 := [LBRACE; LBRACE] ++ ws1 ++ key ++ ws2
                                  ++ [RBRACE; RBRACE];
                      group1 := key |}
                 = Ok (py_str (_lookup key context), tt)).
    { rewrite Hrepl. destruct (_lookup key context); try reflexivity.
      contradiction. }
    rewrite apply_macros_unfold by exact Hnil.
    rewrite P1. cbn [rbind]. rewrite (P2 _ Hr). cbn [rbind].
    unfold re_sub, _PROT. rewrite sub_loop_copy_all; [reflexivity|].
    repeat apply not_in_app; auto.
Qed.

(** ** Further properties of the nested renderer *)

Lemma indent_of_S (level : nat) : indent_of (S level) = deeper (indent_of level).
Proof. reflexivity. Qed.

Lemma deeper_app (indent rest : pystr) :
  deeper indent ++ rest = deeper (indent ++ rest).
Proof. unfold deeper. now rewrite <- app_assoc. Qed.

Lemma enum_extend_map (X : Type) (g : pystr -> pystr)
    (f : nat -> X -> list pystr) (xs : list X) :
  forall i,
    map g (enum_extend f i xs) = enum_extend (fun i x => map g (f i x)) i xs.
Proof.
  induction xs as [|x xs IH]; intros i; cbn [enum_extend map]; [reflexivity|].
  now rewrite map_app, IH.
Qed.

Lemma enum_extend_ext (X : Type) (Q : X -> Prop)
    (f g : nat -> X -> list pystr) (xs : list X) :
  Forall Q xs ->
  (forall i x, Q x -> f i x = g i x) ->
  forall i, enum_extend f i xs = enum_extend g i xs.
Proof.
  intros HQ Hfg. induction HQ as [|x xs Hx _ IH]; intros i;
    cbn [enum_extend]; [reflexivity|].
  now rewrite (Hfg i x Hx), IH.
Qed.

Lemma enum_extend_app (X : Type) (f : nat -> X -> list pystr)
    (a b : list X) :
  forall i,
    enum_extend f i (a ++ b)
    = enum_extend f i a ++ enum_extend f (i + length a) b.
Proof.
  induction a as [|x a IH]; intros i; cbn [app enum_extend length].
  - now rewrite Nat.add_0_r.
  - rewrite IH, <- app_assoc. do 3 f_equal. lia.
Qed.

Lemma labelled_deeper (indent bullet k : pystr) (v : value)
    (nested : list pystr) :
  labelled (deeper indent) bullet k v (map deeper nested)
  = map deeper (labelled indent bullet k v nested).
Proof.
  unfold labelled.
  destruct (_is_nested_structure v); [|destruct v]; cbn [map];
    now rewrite deeper_app.
Qed.

Lemma render_deeper (ordered : bool) (v : value) :
  (forall level,
      _render_nested ordered v (S level)
      = map deeper (_render_nested ordered v level))
  /\ (forall level idx,
         _render_item ordered v (S level) idx
         = map deeper (_render_item ordered v level idx)).
Proof.
  induction v as [ | b | z | s | xs IH | xs IH | kvs IH ]
    using value_nested_ind.
  - split; intros; cbn [_render_nested _render_item map]; rewrite indent_of_S.
    + now rewrite deeper_app.
    + destruct (strip (py_str VNone)); cbn [map]; [reflexivity|].
      now rewrite deeper_app.
  - split; intros; cbn [_render_nested _render_item map]; rewrite indent_of_S.
    + now rewrite deeper_app.
    + destruct (strip (py_str (VBool b))); cbn [map]; [reflexivity|].
      now rewrite deeper_app.
  - split; intros; cbn [_render_nested _render_item map]; rewrite indent_of_S.
    + now rewrite deeper_app.
    + destruct (strip (py_str (VInt z))); cbn [map]; [reflexivity|].
      now rewrite deeper_app.
  - split; intros; cbn [_render_nested _render_item map]; rewrite indent_of_S.
    + now rewrite deeper_app.
    + destruct (strip (py_str (VStr s))); cbn [map]; [reflexivity|].
      now rewrite deeper_app.
  - assert (Hseq : forall level,
               enum_extend (fun idx item => _render_item ordered item
                                              (S level) idx) 1 xs
               = map deeper
                   (enum_extend (fun idx item => _render_item ordered item
                                                   level idx) 1 xs)).
    { intros level. rewrite enum_extend_map.
      eapply enum_extend_ext; [exact IH|]. intros i x [_ Hx]. apply Hx. }
    split; intros; cbn [_render_nested _render_item]; [apply Hseq|].
    destruct xs as [|x rest].
    + cbn [enum_extend map]. rewrite indent_of_S. now rewrite deeper_app.
    + assert (Hgen : (indent_of (S level) ++ _bullet_label idx ordered)
                       :: enum_extend
                            (fun idx' it => _render_item ordered it
                                              (S (S level)) idx')
                            1 (x :: rest)
                     = map deeper
                         ((indent_of level ++ _bullet_label idx ordered)
                            :: enum_extend
                                 (fun idx' it => _render_item ordered it
                                                   (S level) idx')
                                 1 (x :: rest))).
      { cbn [map]. rewrite Hseq, indent_of_S. now rewrite deeper_app. }
      destruct x; try exact Hgen.
      cbn [map]. rewrite indent_of_S, deeper_app. f_equal.
      destruct rest as [|children rest']; [reflexivity|].
      inversion IH as [|? ? _ IHrest]; subst.
      inversion IHrest as [|? ? [Hch _] _]; subst.
      destruct (_is_nested_structure children); [apply Hch|].
      destruct children; cbn [map]; try reflexivity;
        now rewrite indent_of_S, deeper_app.
  - assert (Hseq : forall level,
               enum_extend (fun idx item => _render_item ordered item
                                              (S level) idx) 1 xs
               = map deeper
                   (enum_extend (fun idx item => _render_item ordered item
                                                   level idx) 1 xs)).
    { intros level. rewrite enum_extend_map.
      eapply enum_extend_ext; [exact IH|]. intros i x [_ Hx]. apply Hx. }
    split; intros; cbn [_render_nested _render_item]; [apply Hseq|].
    destruct xs as [|x rest].
    + cbn [enum_extend map]. rewrite indent_of_S. now rewrite deeper_app.
    + assert (Hgen : (indent_of (S level) ++ _bullet_label idx ordered)
                       :: enum_extend
                            (fun idx' it => _render_item ordered it
                                              (S (S level)) idx')
                            1 (x :: rest)
                     = map deeper
                         ((indent_of level ++ _bullet_label idx ordered)
                            :: enum_extend
                                 (fun idx' it => _render_item ordered it
                                                   (S level) idx')
                                 1 (x :: rest))).
      { cbn [map]. rewrite Hseq, indent_of_S. now rewrite deeper_app. }
      destruct x; try exact Hgen.
      cbn [map]. rewrite indent_of_S, deeper_app. f_equal.
      destruct rest as [|children rest']; [reflexivity|].
      inversion IH as [|? ? _ IHrest]; subst.
      inversion IHrest as [|? ? [Hch _] _]; subst.
      destruct (_is_nested_structure children); [apply Hch|].
      destruct children; cbn [map]; try reflexivity;
        now rewrite indent_of_S, deeper_app.
  - assert (Hmap : forall level,
               enum_extend
                 (fun idx '(k, w) =>
                    labelled (indent_of (S level)) (_bullet_label idx ordered)
                             k w (_render_nested ordered w (S (S level))))
                 1 kvs
               = map deeper
                   (enum_extend
                      (fun idx '(k, w) =>
                         labelled (indent_of level) (_bullet_label idx ordered)
                                  k w (_render_nested ordered w (S level)))
                      1 kvs)).
    { intros level. rewrite enum_extend_map.
      eapply enum_extend_ext; [exact IH|]. intros i [k w] [Hw _].
      cbn [snd] in Hw.
      now rewrite Hw, indent_of_S, labelled_deeper. }
    split; intros; cbn [_render_nested].
    + apply Hmap.
    + destruct kvs as [|[k v] [|kv2 kvs']].
      * cbn [_render_item enum_extend map]. rewrite indent_of_S.
        now rewrite deeper_app.
      * cbn [_render_item]. inversion IH as [|? ? [Hv _] _]; subst.
        cbn [snd] in Hv. now rewrite Hv, indent_of_S, labelled_deeper.
      * cbn [_render_item]. cbn [map]. rewrite Hmap, indent_of_S.
        now rewrite deeper_app.
Qed.

(** X18: the lines of a payload rendered at a nesting level are its lines
    at level 0, each behind two spaces per level; this holds for every
    payload, however deeply nested. *)
Theorem render_nested_indents_by_level (ordered : bool) (v : value)
    (level : nat) :
  _render_nested ordered v level
  = map (fun line => indent_of level ++ line) (_render_nested ordered v 0).
Proof.
  induction level as [|level IH].
  - cbn [indent_of str_mul app]. now rewrite map_id.
  - rewrite (proj1 (render_deeper ordered v)), IH, map_map.
    apply map_ext. intros line. now rewrite indent_of_S, deeper_app.
Qed.

(** X19: in a sequence, a string that is blank once trimmed gives no line
    but still takes its number: the elements after it are numbered as if it
    had been written. *)
Theorem blank_item_keeps_its_number (ordered : bool) (pre post : list value)
    (s : pystr) (level : nat) :
  strip s = [] ->
  _render_sequence_at_level ordered (pre ++ VStr s :: post) level
  = _render_sequence_at_level ordered pre level
      ++ enum_extend (fun idx item => _render_item ordered item level idx)
                     (length pre + 2) post.
Proof.
  intros Hs. unfold _render_sequence_at_level.
  rewrite enum_extend_app. cbn [enum_extend _render_item py_str].
  rewrite Hs. cbn [app]. do 2 f_equal. lia.
Qed.

Lemma render_strings_from (ordered : bool) (level : nat) (xs : list pystr) :
  Forall (fun s => strip s <> []) xs ->
  forall i,
    enum_extend (fun idx item => _render_item ordered item level idx) i
                (map VStr xs)
    = map (fun '(idx, s) =>
             indent_of level ++ _bullet_label idx ordered ++ u " " ++ strip s)
          (combine (seq i (length xs)) xs).
Proof.
  induction 1 as [|s xs Hs _ IH]; intros i;
    cbn [map enum_extend length seq combine]; [reflexivity|].
  rewrite IH. cbn [_render_item py_str].
  destruct (strip s) as [|c r]; [contradiction | reflexivity].
Qed.

(** X20: a list of strings, none blank once trimmed, renders to one line
    per string, in order: the indentation of the level, the label ("1."
    "2." ... when ordered, "-" otherwise), a space and the trimmed
    string. *)
Theorem render_list_of_strings (ordered : bool) (level : nat)
    (xs : list pystr) :
  Forall (fun s => strip s <> []) xs ->
  _render_sequence_at_level ordered (map VStr xs) level
  = map (fun '(idx, s) =>
           indent_of level ++ _bullet_label idx ordered ++ u " " ++ strip s)
        (combine (seq 1 (length xs)) xs)
  /\ length (_render_sequence_at_level ordered (map VStr xs) level)
     = length xs.
Proof.
  intros H. unfold _render_sequence_at_level.
  rewrite render_strings_from by exact H. split; [reflexivity|].
  now rewrite length_map, length_combine, length_seq, Nat.min_id.
Qed.

(** ** Further properties of the I/O helpers *)

Lemma from_dict_loop_raise (entries : dict value) (e : exn) :
  fold_left
    (fun acc '(key, sd) =>
       let* secs := acc in
       let* sec := section_of_dict key sd in
       Ok (dict_set key sec secs))
    entries (Raise e)
  = Raise e.
Proof. induction entries as [|[k sd] entries IH]; cbn; auto. Qed.

Lemma from_dict_loop_wf (entries : dict value) :
  forall acc secs,
    dict_wf acc ->
    fold_left
      (fun acc '(key, sd) =>
         let* secs := acc in
         let* sec := section_of_dict key sd in
         Ok (dict_set key sec secs))
      entries (Ok acc)
    = Ok secs ->
    dict_wf secs.
Proof.
  induction entries as [|[k sd] entries IH]; intros acc secs Hacc;
    cbn [fold_left rbind].
  - intros H. injection H as <-. exact Hacc.
  - destruct (section_of_dict k sd) as [sec|e]; cbn [rbind].
    + apply IH. now apply dict_wf_set.
    + rewrite from_dict_loop_raise. discriminate.
Qed.

(** What [from_dict] returns, by the entries of the data. *)
Lemma from_dict_shape (data : value) (pb : PromptBuilder) :
  from_dict data = Ok pb ->
  builder_wf pb
  /\ (forall d, data = VDict d -> dict_get (u "order") d = None ->
        order pb = dict_keys (sections pb) /\ well_formed pb)
  /\ (forall d names, data = VDict d ->
        dict_get (u "order") d = Some (VList (map VStr names)) ->
        order pb = names).
Proof.
  unfold from_dict. destruct data as [| | | | | |d]; try discriminate.
  cbn [as_mapping rbind].
  destruct (get_default (u "meta") d (VDict [])) as [| | | | | |m];
    try discriminate.
  cbn [rbind].
  destruct (get_default (u "sections") d (VDict [])) as [| | | | | |entries];
    try discriminate.
  cbn [as_mapping rbind].
  match goal with
  | |- context [fold_left ?f entries ?a] =>
      destruct (fold_left f entries a) as [secs|e] eqn:Eloop
  end; [|discriminate].
  cbn [rbind].
  assert (Hwf : dict_wf secs).
  { eapply from_dict_loop_wf; [|exact Eloop]. constructor. }
  destruct (dict_get (u "order") d) as [ov|] eqn:Eo.
  - destruct (as_names ov) as [o|e] eqn:En; [|discriminate].
    cbn [rbind]. intros H. injection H as <-.
    split; [exact Hwf | split].
    + intros d' Hd. injection Hd as <-. rewrite Eo. discriminate.
    + intros d' names Hd. injection Hd as <-. rewrite Eo.
      intros H. injection H as ->. rewrite as_names_of_names in En.
      injection En as <-. reflexivity.
  - cbn [rbind]. intros H. injection H as <-.
    split; [exact Hwf | split].
    + intros _ _ _. split; [reflexivity|].
      split; [exact Hwf | split; [exact Hwf | intros n; reflexivity]].
    + intros d' names Hd. injection Hd as <-. rewrite Eo. discriminate.
Qed.

(** X21: whatever [from_dict] returns has a section mapping with no key
    twice; when the data holds no "order" entry, the order list is the keys
    of the sections in their order, so that the builder is well formed.  An
    "order" entry is taken as it is. *)
Theorem from_dict_result_well_formed (data : value) (pb : PromptBuilder) :
  from_dict data = Ok pb ->
  builder_wf pb
  /\ (forall d, data = VDict d -> dict_get (u "order") d = None ->
        order pb = dict_keys (sections pb) /\ well_formed pb)
  /\ (forall d names, data = VDict d ->
        dict_get (u "order") d = Some (VList (map VStr names)) ->
        order pb = names).
Proof. apply from_dict_shape. Qed.

(** X22: [from_dict] does not check the order list against the sections:
    when the "order" entry names a section that is not among the sections
    read, the builder it returns makes [compile] raise [KeyError]. *)
Theorem from_dict_unknown_order_name_breaks_compile (d : dict value)
    (names : list pystr) (pb : PromptBuilder) (joiner : pystr)
    (include_empty : bool) :
  from_dict (VDict d) = Ok pb ->
  dict_get (u "order") d = Some (VList (map VStr names)) ->
  forallb (fun n => dict_mem n (sections pb)) names = false ->
  compile None joiner include_empty pb = (Raise KeyError, pb).
Proof.
  intros Hfrom Ho Hmiss.
  destruct (@from_dict_shape _ _ Hfrom) as (_ & _ & Hnames).
  specialize (Hnames d names eq_refl Ho).
  rewrite <- Hnames in Hmiss.
  pose proof (compile_loop_no_context include_empty pb (order pb) []) as H.
  rewrite Hmiss in H.
  unfold compile. rewrite run_bind. cbn [gets]. rewrite run_bind.
  now rewrite H.
Qed.

(** ** Stored strings are in normal form *)

Lemma lstrip_clean_head (s : pystr) : clean_head (lstrip s).
Proof.
  induction s as [|c s IH]; cbn; [exact I|].
  destruct (isspace c) eqn:E; [exact IH | exact E].
Qed.

Lemma lstrip_clean (s : pystr) : clean_head s -> lstrip s = s.
Proof. destruct s as [|c s]; cbn; [reflexivity|]. now intros ->. Qed.

Lemma lstrip_keeps_last (l : pystr) (c : char) :
  isspace c = false -> exists l', lstrip (l ++ [c]) = l' ++ [c].
Proof.
  intros Hc. induction l as [|d l IH]; cbn.
  - rewrite Hc. now exists [].
  - destruct (isspace d); [exact IH | now exists (d :: l)].
Qed.

Lemma rstrip_clean_head (s : pystr) : clean_head s -> clean_head (rstrip s).
Proof.
  destruct s as [|c s]; [intros _; exact I|]. cbn [clean_head]. intros Hc.
  unfold rstrip. cbn [rev].
  destruct (@lstrip_keeps_last (rev s) c Hc) as (l' & ->).
  rewrite rev_app_distr. exact Hc.
Qed.

Lemma strip_trimmed (s : pystr) : trimmed (strip s).
Proof.
  unfold trimmed, strip. split.
  - apply rstrip_clean_head, lstrip_clean_head.
  - unfold clean_last, rstrip. rewrite rev_involutive. apply lstrip_clean_head.
Qed.

Lemma trimmed_strip (s : pystr) : trimmed s -> strip s = s.
Proof.
  intros [Hh Hl]. unfold strip, rstrip. rewrite (@lstrip_clean _ Hh).
  rewrite (@lstrip_clean _ Hl). apply rev_involutive.
Qed.

Lemma is_nl_isspace (c : char) : is_nl c = true -> isspace c = true.
Proof.
  unfold is_nl, char_eqb. intros H. apply N.eqb_eq in H. now subst.
Qed.

Lemma collapse_runs_keeps_last (l : pystr) (c : char) :
  isspace c = false ->
  forall run, exists l', collapse_runs (l ++ [c]) run = l' ++ [c].
Proof.
  intros Hc.
  assert (Hn : char_eqb c NL = false).
  { destruct (char_eqb c NL) eqn:E; [|reflexivity].
    apply is_nl_isspace in E. congruence. }
  induction l as [|d l IH]; intros run; cbn [app collapse_runs].
  - rewrite Hn. exists (emit_run run). reflexivity.
  - destruct (char_eqb d NL); [apply IH|].
    destruct (IH 0) as (l' & ->). exists (emit_run run ++ d :: l').
    now rewrite <- app_assoc.
Qed.

Lemma collapse_runs_trimmed (s : pystr) :
  trimmed s -> trimmed (collapse_runs s 0).
Proof.
  intros [Hh Hl]. split.
  - destruct s as [|c s]; [exact I|]. cbn [clean_head] in Hh.
    cbn [collapse_runs].
    destruct (char_eqb c NL) eqn:E; [apply is_nl_isspace in E; congruence|].
    exact Hh.
  - unfold clean_last in *. destruct (rev s) as [|c r] eqn:Er.
    + apply (f_equal (@rev char)) in Er. rewrite rev_involutive in Er.
      subst s. exact I.
    + cbn [clean_head] in Hl.
      apply (f_equal (@rev char)) in Er. rewrite rev_involutive in Er.
      cbn [rev] in Er. subst s.
      destruct (@collapse_runs_keeps_last (rev r) c Hl 0) as (l' & ->).
      rewrite rev_app_distr. exact Hl.
Qed.

Lemma emit_run_repeat (m : nat) : m <= 2 -> emit_run m = repeat NL m.
Proof.
  intros H. unfold emit_run.
  destruct (3 <=? m) eqn:E; [apply Nat.leb_le in E; lia | reflexivity].
Qed.

Lemma emit_run_short (m : nat) :
  exists j, j <= 2 /\ emit_run m = repeat NL j.
Proof.
  unfold emit_run. destruct (3 <=? m) eqn:E.
  - exists 2. split; [lia | reflexivity].
  - apply Nat.leb_gt in E. exists m. split; [lia | reflexivity].
Qed.

Lemma collapse_runs_repeat (j run : nat) (t : pystr) :
  collapse_runs (repeat NL j ++ t) run = collapse_runs t (run + j).
Proof.
  revert run. induction j as [|j IH]; intros run; cbn [repeat app collapse_runs].
  - now rewrite Nat.add_0_r.
  - unfold char_eqb. rewrite N.eqb_refl. rewrite IH. f_equal. lia.
Qed.

Lemma collapse_runs_idempotent_upto (n : nat) :
  forall s run, length s <= n ->
    collapse_runs (collapse_runs s run) 0 = collapse_runs s run.
Proof.
  induction n as [|n IH]; intros s run Hlen.
  - destruct s; [|cbn in Hlen; lia]. cbn [collapse_runs].
    destruct (emit_run_short run) as (j & Hj & ->).
    rewrite <- (app_nil_r (repeat NL j)) at 1.
    rewrite collapse_runs_repeat. cbn [collapse_runs Nat.add].
    now apply emit_run_repeat.
  - rewrite (collapse_runs_split s run).
    destruct (emit_run_short (run + nl_run s)) as (j & Hj & ->).
    rewrite collapse_runs_repeat. cbn [Nat.add].
    destruct (after_run s) as [|c r] eqn:Ea; cbn [tail_part].
    + cbn [collapse_runs]. rewrite app_nil_r. now apply emit_run_repeat.
    + assert (Hc : char_eqb c NL = false).
      { pose proof (nl_run_after_run s) as H0. rewrite Ea in H0.
        cbn in H0. unfold is_nl in H0.
        destruct (char_eqb c NL); [discriminate | reflexivity]. }
      cbn [collapse_runs]. rewrite Hc.
      rewrite IH.
      * now rewrite emit_run_repeat.
      * pose proof (after_run_le s) as Hle. rewrite Ea in Hle.
        cbn [length] in Hle. lia.
Qed.

(** X23: the text [set] stores for a string is in normal form: coercing it
    again gives the same text, so that setting a section to its own stored
    content changes nothing in it. *)
Theorem coerce_string_idempotent (ordered ordered' : bool) (p : pystr) :
  _coerce_to_str ordered' (VStr (_coerce_to_str ordered (VStr p)))
  = _coerce_to_str ordered (VStr p).
Proof.
  cbn [_coerce_to_str]. rewrite !normalize_blank_lines_collapses.
  rewrite trimmed_strip by apply collapse_runs_trimmed, strip_trimmed.
  apply (@collapse_runs_idempotent_upto (length (strip p))). lia.
Qed.

(** ** Headers and missing keys *)

(** X24: without a context, a title that starts with "#" once its leading
    blanks are dropped is the header as it is, whatever [header_size] says;
    any other non-empty title is put behind [k] "#" characters and a space,
    the whole trimmed, where [k] is [header_size] brought into 1..6 and 0
    counts as 1. *)
Theorem header_levels (sec : section) (ttl : pystr) :
  title sec = Some ttl ->
  ttl <> [] ->
  (startswith [HASH] (lstrip ttl) = true ->
   outcome (_header None) sec = Ok (Some ttl))
  /\ (startswith [HASH] (lstrip ttl) = false ->
      exists k,
        1 <= k <= 6
        /\ ((1 <= header_size sec <= 6)%Z -> k = Z.to_nat (header_size sec))
        /\ ((header_size sec <= 0)%Z -> k = 1)
        /\ ((6 <= header_size sec)%Z -> k = 6)
        /\ outcome (_header None) sec
           = Ok (Some (strip (str_mul [HASH] k ++ u " " ++ ttl)))).
Proof.
  intros Ht Hne. destruct sec as [nm c mc t inc hs].
  cbn [title header_size] in *. subst t.
  destruct ttl as [|c0 ttl]; [contradiction|].
  unfold outcome. cbv [_header bind gets ret title header_size].
  split; intros Hs; rewrite Hs; [reflexivity|].
  exists (Z.to_nat (Z.max 1 (Z.min 6 (if (hs =? 0)%Z then 1 else hs)))).
  destruct (hs =? 0)%Z eqn:E0;
    [apply Z.eqb_eq in E0 | apply Z.eqb_neq in E0];
    repeat split; try reflexivity; try lia.
Qed.

(** X25: a path that does not resolve counts as [None] in a condition: the
    expectation [False] or [None] then passes, a list passes when it holds
    [None], and [True] or any other value fails. *)
Theorem condition_on_missing_path (key : pystr) (expected : value)
    (ctx : dict value) :
  _lookup key ctx = VNone ->
  _conditions_match [(key, expected)] (Some ctx)
  = match expected with
    | VNone => true
    | VBool b => negb b
    | VList xs | VTuple xs => py_in VNone xs
    | _ => false
    end.
Proof.
  intros H. cbn [_conditions_match forallb fst snd]. rewrite H, andb_true_r.
  destruct expected as [|[|]| | | | |]; reflexivity.
Qed.

(** ** What [render] returns and what [compile] includes *)

(** [render], step by step: the truncated content, the macros when a
    context is given and a delimiter is there, then the header. *)
Lemma render_outcome (context : option (dict value)) (sec : section) :
  outcome (render context) sec =
  match
    match context with
    | Some ctx =>
        if contains (u "{{") (truncated (content sec) (max_chars sec))
           || contains (u "{{{") (truncated (content sec) (max_chars sec))
        then _apply_macros (truncated (content sec) (max_chars sec)) ctx
        else Ok (truncated (content sec) (max_chars sec))
    | None => Ok (truncated (content sec) (max_chars sec))
    end
  with
  | Raise e => Raise e
  | Ok s =>
      match outcome (_header context) sec with
      | Raise e => Raise e
      | Ok (Some ((_ :: _) as h)) =>
          Ok (match s with [] => [] | _ => h ++ [NL] ++ s end)
      | Ok _ => Ok s
      end
  end.
Proof.
  unfold render. unfold outcome at 1.
  rewrite bind_read_only by apply read_only_gets.
  unfold outcome at 1. cbn [gets fst].
  rewrite bind_read_only by apply read_only_gets.
  unfold outcome at 1. cbn [gets fst].
  set (t := truncated (content sec) (max_chars sec)).
  assert (Hro : read_only
                  (match context with
                   | Some ctx =>
                       if contains (u "{{") t || contains (u "{{{") t
                       then @lift section _ (_apply_macros t ctx)
                       else ret t
                   | None => ret t
                   end)).
  { destruct context; [destruct (_ || _)|];
      auto using read_only_lift, read_only_ret. }
  rewrite bind_read_only by exact Hro. clear Hro.
  assert (Hs : outcome
                 (match context with
                  | Some ctx =>
                      if contains (u "{{") t || contains (u "{{{") t
                      then @lift section _ (_apply_macros t ctx)
                      else ret t
                  | None => ret t
                  end) sec
               = match context with
                 | Some ctx =>
                     if contains (u "{{") t || contains (u "{{{") t
                     then _apply_macros t ctx
                     else Ok t
                 | None => Ok t
                 end).
  { destruct context; [destruct (_ || _)|]; reflexivity. }
  rewrite Hs. clear Hs.
  destruct (match context with
            | Some ctx =>
                if contains (u "{{") t || contains (u "{{{") t
                then _apply_macros t ctx
                else Ok t
            | None => Ok t
            end) as [s|e]; [|reflexivity].
  rewrite bind_read_only by apply read_only_header.
  destruct (outcome (_header context) sec) as [[[|c h]|]|e]; reflexivity.
Qed.


(** The loop of [compile] looks at the sections only: two builders with the
    same sections give the same parts. *)
Lemma compile_loop_sections context include_empty (pb pb' : PromptBuilder)
    (ord : list pystr) :
  sections pb = sections pb' ->
  forall parts,
    outcome (for_fold
               (fun parts nm =>
                  on_section nm (compile_section context include_empty parts))
               ord parts) pb
    = outcome (for_fold
                 (fun parts nm =>
                    on_section nm
                      (compile_section context include_empty parts))
                 ord parts) pb'.
Proof.
  intros Hs. induction ord as [|n ord IH]; intros parts; [reflexivity|].
  unfold outcome in *. cbn [for_fold]. rewrite !run_bind.
  rewrite !on_section_read_only_run by apply read_only_compile_section.
  rewrite Hs.
  destruct (match dict_get n (sections pb') with
            | Some sec =>
                outcome (compile_section context include_empty parts) sec
            | None => Raise KeyError
            end) as [parts1|e]; [apply IH | reflexivity].
Qed.

(** A section that is passed over adds nothing: the loop gives the same
    parts with its name taken out of the list. *)
Lemma compile_loop_skips context include_empty (pb : PromptBuilder)
    (nm : pystr) (sec : section) (ord : list pystr) :
  dict_get nm (sections pb) = Some sec ->
  skipped (include_if sec) context = true ->
  forall parts,
    for_fold
      (fun parts n =>
         on_section n (compile_section context include_empty parts))
      ord parts pb
    = for_fold
        (fun parts n =>
           on_section n (compile_section context include_empty parts))
        (filter (fun n => negb (pystr_eqb n nm)) ord) parts pb.
Proof.
  intros Hget Hskip. induction ord as [|n ord IH]; intros parts;
    [reflexivity|].
  cbn [filter]. destruct (pystr_eqb n nm) eqn:E; cbn [negb for_fold].
  - apply pystr_eqb_eq in E. subst n. rewrite run_bind.
    rewrite on_section_read_only_run by apply read_only_compile_section.
    rewrite Hget, compile_section_outcome, Hskip. apply IH.
  - rewrite !run_bind.
    rewrite on_section_read_only_run by apply read_only_compile_section.
    destruct (match dict_get n (sections pb) with
              | Some sec0 =>
                  outcome (compile_section context include_empty parts) sec0
              | None => Raise KeyError
              end) as [parts1|e]; [apply IH | reflexivity].
Qed.

Lemma compile_outcome_loop context joiner include_empty
    (pb : PromptBuilder) :
  outcome (compile context joiner include_empty) pb =
  match
    outcome (for_fold
               (fun parts nm =>
                  on_section nm (compile_section context include_empty parts))
               (order pb) []) pb
  with
  | Ok parts =>
      Ok (if include_empty then join joiner parts
          else join joiner
                 (filter (fun p => match p with [] => false | _ => true end)
                         parts))
  | Raise e => Raise e
  end.
Proof.
  unfold outcome, compile. rewrite run_bind. cbn [gets]. rewrite run_bind.
  destruct (for_fold _ (order pb) [] pb) as [[parts|e] pb'];
    cbn [fst]; [destruct include_empty|]; reflexivity.
Qed.


End Program.

(** ** Instances *)

(** The round trip on the builder of the JSON test: one section "role" with
    a macro in its content, compiled under the context of a tester. *)
Lemma roundtrip_compile_identical_witness :
  let pb := mkPromptBuilder
              [(u "role",
                mkSection (u "role") (u "You are {{user.role}}.") None
                          (Some (u "Role")) None 1)]
              [] [u "role"] in
  let context := Some [(u "user", VDict [(u "role", VStr (u "tester"))])] in
  builder_wf pb
  /\ exists d pb',
       outcome to_dict pb = Ok d
       /\ from_dict d = Ok pb'
       /\ outcome (compile (fun _ => []) (fun _ => None) context [NL; NL] false)
                  pb'
          = outcome (compile (fun _ => []) (fun _ => None) context [NL; NL]
                             false) pb.
Proof.
  intros pb context.
  assert (H : builder_wf pb).
  { unfold builder_wf, dict_wf. cbn. repeat constructor. cbn. tauto. }
  split; [exact H|].
  exact (@roundtrip_compile_identical (fun _ => []) (fun _ => None) pb context
           [NL; NL] false H).
Defined.



(** ** Where the specification and the code part *)

(** C2, as stated: with [not_a_var] absent from the context, the result is
    not "Literal:  {{not_a_var}}": the space before the closing delimiter
    belongs to the escaped text and is restored with it. *)
Lemma literal_block_keeps_trailing_space :
  _lookup (u "not_a_var") [] = VNone
  /\ forall py_repr uni_digit,
       _apply_macros py_repr uni_digit literal_text []
         = Ok (u "Literal:  {{not_a_var}} ")
       /\ _apply_macros py_repr uni_digit literal_text []
         <> Ok (u "Literal:  {{not_a_var}}").
Proof.
  split; [reflexivity|]. intros py_repr uni_digit.
  rewrite literal_block_restored_verbatim. split; [reflexivity|].
  vm_compute. discriminate.
Qed.


(** ** Instances of the further properties *)

Lemma one_section_well_formed : well_formed one_section.
Proof.
  split; [|split].
  - unfold builder_wf, dict_wf. cbn. repeat constructor. cbn. tauto.
  - cbn. repeat constructor. cbn. tauto.
  - intros n. reflexivity.
Defined.

Lemma operations_keep_well_formed_witness :
  well_formed one_section
  /\ well_formed
       (after (set (fun _ => []) (u "b") (VStr (u "B")) None None false None 1)
              one_section).
Proof.
  split; [exact one_section_well_formed|].
  exact (proj1 (@operations_keep_well_formed (fun _ => []) one_section (u "b")
                  (VStr (u "B")) None None false None 1 section_b true true
                  one_section_well_formed)).
Defined.

Lemma set_order_result_witness :
  builder_wf one_section
  /\ set_order [u "zz"; u "a"] one_section = (Ok tt, one_section).
Proof.
  split; [exact (proj1 one_section_well_formed)|].
  exact (@set_order_result [u "zz"; u "a"] one_section
           (proj1 one_section_well_formed)).
Defined.

Lemma set_existing_keeps_position_witness :
  well_formed one_section
  /\ In (u "a") (order one_section)
  /\ order (after (set (fun _ => []) (u "a") (VStr (u "new")) None None false
                       None 2) one_section)
     = order one_section.
Proof.
  assert (H : In (u "a") (order one_section)) by (left; reflexivity).
  split; [exact one_section_well_formed | split; [exact H|]].
  exact (proj1 (@set_existing_keeps_position (fun _ => []) one_section (u "a")
                  (VStr (u "new")) None None false None 2
                  one_section_well_formed H)).
Defined.

Lemma remove_after_set_new_witness :
  ~ In (u "b") (dict_keys (sections one_section))
  /\ ~ In (u "b") (order one_section)
  /\ after (remove (u "b"))
           (after (set (fun _ => []) (u "b") (VStr (u "B")) None None false
                       None 1) one_section)
     = one_section.
Proof.
  assert (H1 : ~ In (u "b") (dict_keys (sections one_section)))
    by (cbn; intros [H|[]]; discriminate).
  assert (H2 : ~ In (u "b") (order one_section))
    by (cbn; intros [H|[]]; discriminate).
  split; [exact H1 | split; [exact H2|]].
  exact (@remove_after_set_new (fun _ => []) one_section (u "b")
           (VStr (u "B")) None None false None 1 H1 H2).
Defined.

Lemma remove_result_witness :
  builder_wf one_section
  /\ dict_get (u "a") (sections (after (remove (u "a")) one_section)) = None.
Proof.
  split; [exact (proj1 one_section_well_formed)|].
  exact (proj1 (proj2 (@remove_result one_section (u "a")
                         (proj1 one_section_well_formed)))).
Defined.

Lemma add_sections_replace_returns_witness :
  well_formed one_section
  /\ outcome (add_sections [section_b; section_b] true true) one_section
     = Ok tt.
Proof.
  split; [exact one_section_well_formed|].
  exact (proj1 (@add_sections_replace_returns [section_b; section_b] true
                  one_section one_section_well_formed)).
Defined.

Lemma add_sections_stops_at_duplicate_witness :
  dict_mem (name section_b) (sections one_section) = false
  /\ dict_mem (u "a") (sections one_section) = true
  /\ outcome (add_sections
                [section_b; mkSection (u "a") (u "again") None None None 1]
                false true) one_section
     = Raise ValueError.
Proof.
  assert (H1 : dict_mem (name section_b) (sections one_section) = false)
    by reflexivity.
  assert (H2 : dict_mem (name (mkSection (u "a") (u "again") None None None 1))
                        (sections one_section) = true) by reflexivity.
  split; [exact H1 | split; [exact H2|]].
  unfold outcome.
  rewrite (@add_sections_stops_at_duplicate section_b
             (mkSection (u "a") (u "again") None None None 1) [] true
             one_section H1 H2).
  reflexivity.
Defined.

Lemma add_made_section_is_set_witness :
  well_formed one_section
  /\ add_section
       (make_section (fun _ => []) (u "b") (VStr (u "B")) None None false None
                     1) true true one_section
     = set (fun _ => []) (u "b") (VStr (u "B")) None None false None 1
           one_section.
Proof.
  split; [exact one_section_well_formed|].
  exact (@add_made_section_is_set (fun _ => []) one_section (u "b")
           (VStr (u "B")) None None false None 1 true one_section_well_formed).
Defined.

Lemma truncated_length_bound_witness :
  let sec := mkSection (u "long") (u "AAAA    BBBB") (Some 6%Z) None None 1 in
  max_chars sec = Some 6%Z
  /\ (0 < 6)%Z
  /\ length (truncated (content sec) (max_chars sec)) <= Z.to_nat 6 + 1.
Proof.
  intros sec.
  assert (H1 : max_chars sec = Some 6%Z) by reflexivity.
  assert (H2 : (0 < 6)%Z) by reflexivity.
  split; [exact H1 | split; [exact H2|]].
  exact (proj1 (@truncated_length_bound (fun _ => []) (fun _ => None) sec 6%Z
                  H1 H2)).
Defined.

Lemma header_only_section_witness :
  let sec := mkSection (u "todo") (u "   ") None (Some (u "Todo")) None 2 in
  strip (content sec) = []
  /\ (forall n, max_chars sec = Some n -> (0 <= n)%Z)
  /\ include_if sec = None
  /\ outcome (_header (fun _ => []) (fun _ => None) None) sec
     = Ok (Some (u "## Todo"))
  /\ outcome (compile (fun _ => []) (fun _ => None) None [NL; NL] true)
             (mkPromptBuilder [(u "todo", sec)] [] [u "todo"])
     = Ok (u "## Todo").
Proof.
  intros sec.
  assert (H1 : strip (content sec) = []) by reflexivity.
  assert (H2 : forall n, max_chars sec = Some n -> (0 <= n)%Z)
    by (intros n H; discriminate H).
  assert (H3 : include_if sec = None) by reflexivity.
  assert (H4 : outcome (_header (fun _ => []) (fun _ => None) None) sec
               = Ok (Some (u "## Todo"))) by reflexivity.
  split; [exact H1 | split; [exact H2 | split; [exact H3 | split; [exact H4|]]]].
  exact (proj2 (proj2 (@header_only_section (fun _ => []) (fun _ => None) sec
                         (u "todo") [] [NL; NL] (u "## Todo") H1 H2 H3 H4))).
Defined.

Lemma lookup_by_parts_witness :
  let data := [(u "user", VDict [(u "lang", VStr (u "pt-BR"))])] in
  ~ In 46%N (u "user")
  /\ _lookup (u "user" ++ 46%N :: u "lang") data = VStr (u "pt-BR").
Proof.
  intros data.
  assert (H : ~ In 46%N (u "user"))
    by (cbn; intros [H|[H|[H|[H|[]]]]]; discriminate).
  split; [exact H|].
  exact (proj2 (@lookup_by_parts (u "user") (u "lang") data H)).
Defined.

Lemma plain_text_unchanged_witness :
  ~ In LBRACE (u "Be concise.")
  /\ ~ In SENTINEL (u "Be concise.")
  /\ _apply_macros (fun _ => []) (fun _ => None) (u "Be concise.") []
     = Ok (u "Be concise.").
Proof.
  assert (H1 : ~ In LBRACE (u "Be concise."))
    by (cbn; intuition discriminate).
  assert (H2 : ~ In SENTINEL (u "Be concise."))
    by (cbn; intuition discriminate).
  split; [exact H1 | split; [exact H2|]].
  exact (@plain_text_unchanged (fun _ => []) (fun _ => None) (u "Be concise.")
           [] H1 H2).
Defined.

Lemma escaped_block_verbatim_witness :
  ~ In LBRACE (u "Literal: ") /\ ~ In SENTINEL (u "Literal: ")
  /\ ~ In LBRACE (u "!") /\ ~ In SENTINEL (u "!")
  /\ contains (u "}}}") (u " {{x}} " ++ u "}}") = false
  /\ _apply_macros (fun _ => []) (fun _ => None)
       (u "Literal: " ++ u "{{{" ++ u " {{x}} " ++ u "}}}" ++ u "!")
       [(u "x", VInt 1)]
     = Ok (u "Literal: " ++ u " {{x}} " ++ u "!").
Proof.
  assert (H1 : ~ In LBRACE (u "Literal: ")) by (cbn; intuition discriminate).
  assert (H2 : ~ In SENTINEL (u "Literal: ")) by (cbn; intuition discriminate).
  assert (H3 : ~ In LBRACE (u "!")) by (cbn; intuition discriminate).
  assert (H4 : ~ In SENTINEL (u "!")) by (cbn; intuition discriminate).
  assert (H5 : contains (u "}}}") (u " {{x}} " ++ u "}}") = false)
    by reflexivity.
  split; [exact H1 | split; [exact H2 | split; [exact H3 | split; [exact H4 |
    split; [exact H5|]]]]].
  exact (@escaped_block_verbatim (fun _ => []) (fun _ => None) (u "Literal: ")
           (u " {{x}} ") (u "!") [(u "x", VInt 1)] H1 H2 H3 H4 H5).
Defined.

Lemma macro_span_substituted_witness :
  let context := [(u "user", VDict [(u "lang", VStr (u "pt-BR"))])] in
  ~ In LBRACE (u "Use ") /\ ~ In SENTINEL (u "Use ")
  /\ ~ In LBRACE (u ".") /\ ~ In SENTINEL (u ".")
  /\ u "user.lang" <> []
  /\ forallb (fun c => negb (isspace c) && not_brace c) (u "user.lang") = true
  /\ ~ In SENTINEL (u "user.lang")
  /\ forallb isspace (u " ") = true
  /\ forallb isspace (u "") = true
  /\ _apply_macros (fun _ => []) (fun _ => None)
       (u "Use " ++ u "{{" ++ u " " ++ u "user.lang" ++ u "" ++ u "}}" ++ u ".")
       context
     = Ok (u "Use " ++ u "pt-BR" ++ u ".").
Proof.
  intros context.
  assert (H1 : ~ In LBRACE (u "Use ")) by (cbn; intuition discriminate).
  assert (H2 : ~ In SENTINEL (u "Use ")) by (cbn; intuition discriminate).
  assert (H3 : ~ In LBRACE (u ".")) by (cbn; intuition discriminate).
  assert (H4 : ~ In SENTINEL (u ".")) by (cbn; intuition discriminate).
  assert (H5 : u "user.lang" <> []) by discriminate.
  assert (H6 : forallb (fun c => negb (isspace c) && not_brace c)
                       (u "user.lang") = true) by reflexivity.
  assert (H7 : ~ In SENTINEL (u "user.lang")) by (cbn; intuition discriminate).
  assert (H8 : forallb isspace (u " ") = true) by reflexivity.
  assert (H9 : forallb isspace (u "") = true) by reflexivity.
  split; [exact H1 | split; [exact H2 | split; [exact H3 | split; [exact H4 |
    split; [exact H5 | split; [exact H6 | split; [exact H7 | split; [exact H8 |
    split; [exact H9|]]]]]]]]].
  apply (proj2 (@macro_span_substituted (fun _ => []) (fun _ => None)
                  (u "Use ") (u " ") (u "user.lang") (u "") (u ".") context
                  H1 H2 H3 H4 H5 H6 H7 H8 H9)).
  - discriminate.
  - cbn. intuition discriminate.
Defined.

Lemma blank_item_keeps_its_number_witness :
  strip (u "  ") = []
  /\ _render_sequence_at_level (fun _ => []) true
       ([VStr (u "a")] ++ VStr (u "  ") :: [VStr (u "b")]) 0
     = [u "1. a"; u "3. b"].
Proof.
  assert (H : strip (u "  ") = []) by reflexivity.
  split; [exact H|].
  exact (@blank_item_keeps_its_number (fun _ => []) true [VStr (u "a")]
           [VStr (u "b")] (u "  ") 0 H).
Defined.

Lemma render_list_of_strings_witness :
  Forall (fun s => strip s <> []) [u "Find patterns"; u "Be concise"]
  /\ _render_sequence_at_level (fun _ => []) true
       (map VStr [u "Find patterns"; u "Be concise"]) 0
     = [u "1. Find patterns"; u "2. Be concise"].
Proof.
  assert (H : Forall (fun s => strip s <> [])
                     [u "Find patterns"; u "Be concise"])
    by (repeat constructor; discriminate).
  split; [exact H|].
  exact (proj1 (@render_list_of_strings (fun _ => []) true 0
                  [u "Find patterns"; u "Be concise"] H)).
Defined.

Lemma from_dict_result_well_formed_witness :
  let data := VDict [(u "sections",
                      VDict [(u "a", VDict [(u "content", VStr (u "A"))])])] in
  from_dict data = Ok one_section
  /\ well_formed one_section.
Proof.
  intros data.
  assert (H : from_dict data = Ok one_section) by reflexivity.
  split; [exact H|].
  exact (proj2 (proj1 (proj2 (@from_dict_result_well_formed data one_section H))
                  [(u "sections",
                    VDict [(u "a", VDict [(u "content", VStr (u "A"))])])]
                  eq_refl eq_refl)).
Defined.

Lemma from_dict_unknown_order_name_breaks_compile_witness :
  let d := [(u "order", VList (map VStr [u "ghost"]))] in
  let pb := mkPromptBuilder [] [] [u "ghost"] in
  from_dict (VDict d) = Ok pb
  /\ dict_get (u "order") d = Some (VList (map VStr [u "ghost"]))
  /\ forallb (fun n => dict_mem n (sections pb)) [u "ghost"] = false
  /\ compile (fun _ => []) (fun _ => None) None [NL; NL] false pb
     = (Raise KeyError, pb).
Proof.
  intros d pb.
  assert (H1 : from_dict (VDict d) = Ok pb) by reflexivity.
  assert (H2 : dict_get (u "order") d = Some (VList (map VStr [u "ghost"])))
    by reflexivity.
  assert (H3 : forallb (fun n => dict_mem n (sections pb)) [u "ghost"] = false)
    by reflexivity.
  split; [exact H1 | split; [exact H2 | split; [exact H3|]]].
  exact (@from_dict_unknown_order_name_breaks_compile (fun _ => [])
           (fun _ => None) d [u "ghost"] pb [NL; NL] false H1 H2 H3).
Defined.

Lemma header_levels_witness :
  let sec := mkSection (u "r") (u "x") None (Some (u "Role")) None 9 in
  title sec = Some (u "Role")
  /\ u "Role" <> []
  /\ exists k, 1 <= k <= 6
               /\ outcome (_header (fun _ => []) (fun _ => None) None) sec
                  = Ok (Some (strip (str_mul [HASH] k ++ u " " ++ u "Role"))).
Proof.
  intros sec.
  assert (H1 : title sec = Some (u "Role")) by reflexivity.
  assert (H2 : u "Role" <> []) by discriminate.
  split; [exact H1 | split; [exact H2|]].
  destruct (proj2 (@header_levels (fun _ => []) (fun _ => None) sec (u "Role")
                     H1 H2) eq_refl) as (k & Hk & _ & _ & _ & Hh).
  exists k. split; [exact Hk | exact Hh].
Defined.

Lemma condition_on_missing_path_witness :
  _lookup (u "flags.beta") [] = VNone
  /\ _conditions_match [(u "flags.beta", VBool false)] (Some []) = true.
Proof.
  assert (H : _lookup (u "flags.beta") [] = VNone) by reflexivity.
  split; [exact H|].
  exact (@condition_on_missing_path (u "flags.beta") (VBool false) [] H).
Defined.
